(** * coreplus: the turn router of [MainDialog]

    A shallow embedding of [src/typescript_nodejs/src/dialogs/main/index.ts]
    (class [MainDialog]) and the properties of its routing procedure.

    The dialog stack, the state accessor, the LUIS recognisers, the chit-chat
    interruption policy and the channel are collaborators of the class: they
    are reached through [await]ed calls only.  They are modelled as an
    abstract [Engine]; the router is a computation that threads the engine's
    world and records, in order, every call it issues.  Collaborator calls
    are assumed to return (a rejected promise aborts the turn and is outside
    the model). *)

From Stdlib Require Import String Ascii List Bool Arith QArith Lia FunInd.
From ExtLib Require Import Structures.Monad.
Import ListNotations.
Import MonadNotation.
Local Open Scope string_scope.
Local Open Scope monad_scope.

(** ** JavaScript string helpers

    A string is a text in UTF-8, as a string literal of this file is.
    [trim] removes the code points of ECMAScript's [WhiteSpace] and
    [LineTerminator] classes from both ends: the six of one byte
    ([isWhiteSpace]), U+00A0 of two bytes ([whiteSpace2]) and those of three
    bytes ([whiteSpace3]: U+1680, U+2000 to U+200A, U+2028, U+2029, U+202F,
    U+205F, U+3000, U+FEFF).  [toLowerCase] maps the ASCII capitals and
    leaves every other letter as it is: on text with cased letters outside
    ASCII it is narrower than [String.prototype.toLowerCase]. *)
Module JsString.

Definition isWhiteSpace (c : ascii) : bool :=
  let n := nat_of_ascii c in
  ((9 <=? n)%nat && (n <=? 13)%nat) || (n =? 32)%nat.

(** A byte from [lo] to [hi]. *)
Definition byteIn (lo hi : nat) (c : ascii) : bool :=
  let n := nat_of_ascii c in (lo <=? n)%nat && (n <=? hi)%nat.

(** U+00A0 *)
Definition whiteSpace2 (a b : ascii) : bool :=
  byteIn 194 194 a && byteIn 160 160 b.

(** U+1680; U+2000 to U+200A, U+2028, U+2029, U+202F; U+205F; U+3000;
    U+FEFF *)
Definition whiteSpace3 (a b c : ascii) : bool :=
  (byteIn 225 225 a && byteIn 154 154 b && byteIn 128 128 c)
  || (byteIn 226 226 a && byteIn 128 128 b
      && (byteIn 128 138 c || byteIn 168 169 c || byteIn 175 175 c))
  || (byteIn 226 226 a && byteIn 129 129 b && byteIn 159 159 c)
  || (byteIn 227 227 a && byteIn 128 128 b && byteIn 128 128 c)
  || (byteIn 239 239 a && byteIn 187 187 b && byteIn 191 191 c).

(** Removal of the leading white space, given the tests for the white space
    of two and of three bytes. *)
Fixpoint strip (w2 : ascii -> ascii -> bool)
    (w3 : ascii -> ascii -> ascii -> bool) (s : string) : string :=
  match s with
  | String a s1 =>
      if isWhiteSpace a then strip w2 w3 s1
      else
        match s1 with
        | String b s2 =>
            if w2 a b then strip w2 w3 s2
            else
              match s2 with
              | String c s3 => if w3 a b c then strip w2 w3 s3 else s
              | EmptyString => s
              end
        | EmptyString => s
        end
  | EmptyString => EmptyString
  end.

Definition trimStart (s : string) : string := strip whiteSpace2 whiteSpace3 s.

Fixpoint rev (s : string) : string :=
  match s with
  | String c s' => rev s' ++ String c EmptyString
  | EmptyString => EmptyString
  end.

(** The trailing white space is the leading white space of the reversed
    text, with the bytes of each code point in reverse order. *)
Definition trimEnd (s : string) : string :=
  rev (strip (fun a b => whiteSpace2 b a) (fun a b c => whiteSpace3 c b a)
             (rev s)).

Definition trim (s : string) : string := trimEnd (trimStart s).

Definition lowerChar (c : ascii) : ascii :=
  let n := nat_of_ascii c in
  if ((65 <=? n)%nat && (n <=? 90)%nat)%bool then ascii_of_nat (n + 32)%nat else c.

Fixpoint toLowerCase (s : string) : string :=
  match s with
  | String c s' => String (lowerChar c) (toLowerCase s')
  | EmptyString => EmptyString
  end.

(** [s || d] on a possibly undefined string: the empty string is falsy. *)
Definition orElse (s : option string) (d : string) : string :=
  match s with
  | Some v => if String.eqb v "" then d else v
  | None => d
  end.

(** [xs.includes(x)] *)
Definition includes (xs : list string) (x : string) : bool :=
  existsb (String.eqb x) xs.

End JsString.
Import JsString.

(** ** Data model *)

(** Values the router hands on without looking inside them (TypeScript
    [any]): the entities of a recognizer result and the result of a dialog. *)
Class Payloads : Type := { Entities : Type; Value : Type }.

(** Modelled from the spec: the class [UserData] of [../shared/userData] is
    not part of the sources at hand.  The spec (section 3) gives it one field,
    the locale, a string or nothing, and has a record created with a default
    empty locale.  [new_UserData] is [new UserData()]. *)
Record UserData : Type := { locale : option string }.

Definition new_UserData : UserData := {| locale := None |}.

(** [userData.locale = l] *)
Definition with_locale (u : UserData) (l : option string) : UserData :=
  {| locale := l |}.

(** The values of the enumeration [DialogTurnStatus] of botbuilder-dialogs.
    The status of a turn result is the enumeration's string at run time, which
    is how line 162 compares it with the literal ['complete']; a string also
    covers any status outside the three the router names. *)
Module DialogTurnStatus.
Definition empty : string := "empty".
Definition waiting : string := "waiting".
Definition complete : string := "complete".
Definition cancelled : string := "cancelled".
End DialogTurnStatus.

Record DialogTurnResult `{Payloads} : Type :=
  { status : string; result : option Value }.

(** [turnResult.status = s] *)
Definition with_status `{Payloads} (r : DialogTurnResult) (s : string)
  : DialogTurnResult :=
  {| status := s; result := result r |}.

Record RecognizerResult `{Payloads} : Type :=
  { intents : list (string * Q); entities : Entities }.

(** [{ entities: results.entities }] *)
Record StepOptions `{Payloads} : Type := { options_entities : Entities }.

Definition Attachment : Type := string.

Record ChannelAccount : Type := { id : string }.

(** The fields of [context.activity] the router reads. *)
Record Activity : Type :=
  { type : string;
    text : option string;
    activity_locale : option string;
    attachments : option (list Attachment);
    membersAdded : option (list ChannelAccount);
    recipient : ChannelAccount }.

Module ActivityTypes.
Definition Message : string := "message".
Definition ConversationUpdate : string := "conversationUpdate".
End ActivityTypes.

(** The module [../shared/localizer], a parameter of the development. *)
Record Localizer : Type :=
  { gettext : string -> string -> string;
    getLocale : string;
    getLocales : list string }.

(** Supported LUIS intents, the confidence threshold and the default turn
    result (lines 18 to 28). *)
Definition GREETING_INTENT : string := "Greeting".
Definition NONE_INTENT : string := "None".
Definition LUIS_CONFIDENCE_THRESHOLD : Q := (7 # 10)%Q.

Definition DIALOG_TURN_RESULT_DEFAULT `{Payloads} : DialogTurnResult :=
  {| status := DialogTurnStatus.waiting; result := None |}.

(** [X.name] of the dialog classes. *)
Definition QnADialog_name : string := "QnADialog".
Definition CancelDialog_name : string := "CancelDialog".
Definition GreetingDialog_name : string := "GreetingDialog".
Definition WelcomeDialog_name : string := "WelcomeDialog".

(** ** The intent classifier's top intent *)

(** The best scoring intent, the first one among equals. *)
Fixpoint topScoring (l : list (string * Q)) : option (string * Q) :=
  match l with
  | [] => None
  | (name, score) :: l' =>
      match topScoring l' with
      | Some (name', score') =>
          if Qle_bool score' score then Some (name, score)
          else Some (name', score')
      | None => Some (name, score)
      end
  end.

(** Modelled from the spec: [LuisRecognizer.topIntent] belongs to botbuilder-ai
    and is not part of the sources at hand.  The spec (section 4.1, step 3.c.ii)
    has it return the top intent, forced to the default intent when the top
    confidence is below the threshold; the default is ['None'] when the caller
    passes [undefined], as line 169 does. *)
Definition LuisRecognizer_topIntent `{Payloads} (results : RecognizerResult)
    (defaultIntent : option string) (minScore : Q) : string :=
  let default := match defaultIntent with Some d => d | None => "None" end in
  match topScoring (intents results) with
  | Some (name, score) => if Qle_bool minScore score then name else default
  | None => default
  end.

(** ** Collaborators *)

(** The calls the router awaits. *)
Inductive Call `{Payloads} : Type :=
| AccessorGet                              (* userDataAccessor.get(context) *)
| AccessorGetOr (d : UserData)             (* userDataAccessor.get(context, d) *)
| AccessorSet (u : UserData)               (* userDataAccessor.set(context, u) *)
| SendActivity (message : string)          (* context.sendActivity(message) *)
| Recognize (l : string)                   (* luisRecognizers[l].recognize(context) *)
| IsTurnInterrupted (topIntent : string)   (* chitchatDialog.isTurnInterrupted(dc, topIntent) *)
| BeginDialog (name : string) (options : option StepOptions)
| ContinueDialog
| RepromptDialog
| CancelAllDialogs.

(** What each call resolves to. *)
Definition Resp `{Payloads} (c : Call) : Type :=
  match c with
  | AccessorGet => option UserData
  | AccessorGetOr _ => UserData
  | AccessorSet _ => unit
  | SendActivity _ => unit
  | Recognize _ => RecognizerResult
  | IsTurnInterrupted _ => bool
  | BeginDialog _ _ => DialogTurnResult
  | ContinueDialog => DialogTurnResult
  | RepromptDialog => unit
  | CancelAllDialogs => unit
  end.

(** The collaborators as a black box: a world, the two properties the router
    reads from the dialog context ([dc.activeDialog], by its id, and
    [dc.context.responded]) and the effect of every call. *)
Record Engine `{Payloads} : Type :=
  { World : Type;
    activeDialog : World -> option string;
    responded : World -> bool;
    perform : forall c : Call, World -> Resp c * World }.

(** ** The router monad: world passing with a log of the calls issued *)

Record Out `{Payloads} (W A : Type) : Type :=
  mkOut { val : A; post : W; calls : list Call }.
Arguments mkOut {_ W A}.
Arguments val {_ W A}.
Arguments post {_ W A}.
Arguments calls {_ W A}.

Section Router.

Context `{Payloads} (E : Engine) (loc : Localizer).

Definition Router (A : Type) : Type := World E -> Out (World E) A.

Definition Router_ret {A} (a : A) : Router A :=
  fun w => mkOut a w [].

Definition Router_bind {A B} (m : Router A) (k : A -> Router B) : Router B :=
  fun w =>
    let o1 := m w in
    let o2 := k (val o1) (post o1) in
    mkOut (val o2) (post o2) (calls o1 ++ calls o2).

#[export] Instance Monad_Router : Monad Router :=
  {| ret := @Router_ret; bind := @Router_bind |}.

(** [await c] *)
Definition call (c : Call) : Router (Resp c) :=
  fun w => let r := perform E c w in mkOut (fst r) (snd r) [c].

(** A property read off the dialog context. *)
Definition gets {A} (f : World E -> A) : Router A :=
  fun w => mkOut (f w) w [].

(** *** [getUserLocale] (lines 275 to 284) *)
Definition getUserLocale : Router (option string) :=
  userData <- call AccessorGet ;;
  match userData with
  | None => ret None
  | Some u => ret (locale u)
  end.

(** [a !== b] on strings that may be undefined *)
Definition strictNe (a b : option string) : bool :=
  match a, b with
  | Some x, Some y => negb (String.eqb x y)
  | None, None => false
  | _, _ => true
  end.

(** *** [setUserLocale] (lines 292 to 300) *)
Definition setUserLocale (newLocale : option string) : Router unit :=
  userData <- call (AccessorGetOr new_UserData) ;;
  if strictNe (locale userData) newLocale
     && strictNe newLocale (Some "")
     && strictNe newLocale None
  then call (AccessorSet (with_locale userData newLocale))
  else ret tt.

(** *** Locale resolution (lines 103 to 113 of [onContinueDialog]) *)
Definition resolveLocale (activity : Activity) : Router string :=
  stored <- getUserLocale ;;
  let locale := orElse stored "" in
  if String.eqb locale "" then
    let locale := orElse (activity_locale activity) (getLocale loc) in
    let locale :=
      if negb (includes (getLocales loc) locale) then getLocale loc
      else locale in
    setUserLocale (Some locale) ;;
    ret locale
  else ret locale.

(** *** [welcomeUser] (lines 241 to 268) *)
Fixpoint welcomeMembers (recipientId : string) (members : list ChannelAccount)
    (turnResult : DialogTurnResult) : Router DialogTurnResult :=
  match members with
  | [] => ret turnResult
  | m :: members' =>
      turnResult <-
        (if String.eqb (id m) recipientId
         then call (BeginDialog WelcomeDialog_name None)
         else ret turnResult) ;;
      welcomeMembers recipientId members' turnResult
  end.

Definition welcomeUser (activity : Activity) : Router DialogTurnResult :=
  let turnResult := DIALOG_TURN_RESULT_DEFAULT in
  match membersAdded activity with
  | Some (m :: ms) =>
      welcomeMembers (id (recipient activity)) (m :: ms) turnResult
  | _ => ret turnResult
  end.

(** *** [routeMessage] (lines 138 to 234) *)

(** line 140 *)
Definition utteranceOf (activity : Activity) : string :=
  toLowerCase (trim (orElse (text activity) "")).

(** line 143: the condition of the attachment branch *)
Definition attachmentOnly (activity : Activity) : bool :=
  (String.length (utteranceOf activity) =? 0)%nat
  && match attachments activity with
     | Some l => (0 <? List.length l)%nat
     | None => false
     end.

(** line 150: the condition of the restart branch *)
Definition isRestart (activity : Activity) (locale : string) : bool :=
  String.eqb (utteranceOf activity)
             (toLowerCase (gettext loc locale "restartCommand")).

(** lines 158 to 165: an active QnA dialog is continued first *)
Definition continueQnA (turnResult : DialogTurnResult)
  : Router DialogTurnResult :=
  active <- gets (activeDialog E) ;;
  match active with
  | Some name =>
      if String.eqb name QnADialog_name then
        turnResult <- call ContinueDialog ;;
        if String.eqb (status turnResult) "complete"
        then ret (with_status turnResult DialogTurnStatus.empty)
        else ret turnResult
      else ret turnResult
  | None => ret turnResult
  end.

(** lines 172 to 186: the interruption policy and what follows from it *)
Definition handleInterruption (topIntent : string)
    (turnResult : DialogTurnResult) : Router DialogTurnResult :=
  interrupted <- call (IsTurnInterrupted topIntent) ;;
  if interrupted : bool then
    active <- gets (activeDialog E) ;;
    match active with
    | Some name =>
        if negb (String.eqb name CancelDialog_name)
        then call RepromptDialog ;; ret turnResult
        else call ContinueDialog
    | None => ret turnResult
    end
  else call ContinueDialog.

(** lines 189 to 230: fallback dispatch *)
Definition fallbackDispatch (results : RecognizerResult) (topIntent : string)
    (turnResult : DialogTurnResult) : Router DialogTurnResult :=
  replied <- gets (responded E) ;;
  if negb replied then
    let stepOptions := {| options_entities := entities results |} in
    if String.eqb (status turnResult) DialogTurnStatus.empty then
      if String.eqb topIntent GREETING_INTENT
      then call (BeginDialog GreetingDialog_name (Some stepOptions))
      else call (BeginDialog QnADialog_name None)
    else if String.eqb (status turnResult) DialogTurnStatus.waiting then
      ret turnResult
    else if String.eqb (status turnResult) DialogTurnStatus.complete then
      ret turnResult
    else
      call CancelAllDialogs ;; ret turnResult
  else ret turnResult.

Definition routeMessage (activity : Activity) (locale : string)
  : Router DialogTurnResult :=
  let turnResult := DIALOG_TURN_RESULT_DEFAULT in
  if attachmentOnly activity then
    call (SendActivity (gettext loc locale "attachmentResponse")) ;;
    ret DIALOG_TURN_RESULT_DEFAULT
  else if isRestart activity locale then
    let userData := with_locale new_UserData (Some locale) in
    call (AccessorSet userData) ;;
    call CancelAllDialogs ;;
    call (BeginDialog WelcomeDialog_name None)
  else
    turnResult <- continueQnA turnResult ;;
    results <- call (Recognize locale) ;;
    let topIntent :=
      LuisRecognizer_topIntent results None LUIS_CONFIDENCE_THRESHOLD in
    turnResult <- handleInterruption topIntent turnResult ;;
    fallbackDispatch results topIntent turnResult.

(** *** [onContinueDialog] (lines 99 to 136) *)
Definition onContinueDialog (activity : Activity) : Router DialogTurnResult :=
  let turnResult := DIALOG_TURN_RESULT_DEFAULT in
  locale <- resolveLocale activity ;;
  if String.eqb (type activity) ActivityTypes.Message then
    routeMessage activity locale
  else if String.eqb (type activity) ActivityTypes.ConversationUpdate then
    welcomeUser activity
  else ret turnResult.

(** [onBeginDialog] (lines 89 to 92) *)
Definition onBeginDialog (activity : Activity) : Router DialogTurnResult :=
  onContinueDialog activity.

End Router.

(** ** Observing a run *)

(** Kinds of calls in a log. *)
Definition isBeginDialog `{Payloads} (c : Call) : bool :=
  match c with BeginDialog _ _ => true | _ => false end.

Definition isContinueDialog `{Payloads} (c : Call) : bool :=
  match c with ContinueDialog => true | _ => false end.

Definition isCancelAllDialogs `{Payloads} (c : Call) : bool :=
  match c with CancelAllDialogs => true | _ => false end.

Definition isSendActivity `{Payloads} (c : Call) : bool :=
  match c with SendActivity _ => true | _ => false end.

Definition isAccessorGet `{Payloads} (c : Call) : bool :=
  match c with AccessorGet | AccessorGetOr _ => true | _ => false end.

Definition isAccessorSet `{Payloads} (c : Call) : bool :=
  match c with AccessorSet _ => true | _ => false end.

(** The calls of the steps that follow the restart check (lines 158 to
    230). *)
Definition fromSteps `{Payloads} (c : Call) : bool :=
  match c with
  | Recognize _ | IsTurnInterrupted _ | BeginDialog _ _
  | ContinueDialog | RepromptDialog | CancelAllDialogs => true
  | _ => false
  end.

(** [activity.attachments = atts] *)
Definition with_attachments (activity : Activity)
    (atts : option (list Attachment)) : Activity :=
  {| type := type activity;
     text := text activity;
     activity_locale := activity_locale activity;
     attachments := atts;
     membersAdded := membersAdded activity;
     recipient := recipient activity |}.

Section Steps.

Context `{Payloads} (E : Engine) (loc : Localizer).
Variables (locale : string) (w : World E).

(** The run of [routeMessage]'s last branch (lines 158 to 230), step by
    step: each definition is the outcome of one block, started in the world
    the block before it left. *)
Definition afterQnA : Out (World E) DialogTurnResult :=
  continueQnA E DIALOG_TURN_RESULT_DEFAULT w.

Definition classified : Out (World E) RecognizerResult :=
  call E (Recognize locale) (post afterQnA).

Definition effectiveIntent : string :=
  LuisRecognizer_topIntent (val classified) None LUIS_CONFIDENCE_THRESHOLD.

Definition afterInterruption : Out (World E) DialogTurnResult :=
  handleInterruption E effectiveIntent (val afterQnA) (post classified).

Definition dispatched : Out (World E) DialogTurnResult :=
  fallbackDispatch E (val classified) effectiveIntent
                   (val afterInterruption) (post afterInterruption).

End Steps.

(** Modelled from the spec: the state property accessor belongs to botbuilder
    and is not part of the sources at hand.  The spec gives its contract
    (sections 4.2 and 6) and has the record created on first access (section
    3): [get] reads the stored record; [get] with a default hands back the
    stored record, or the default when nothing is stored, and may then leave
    the default stored; it changes the stored record in no other way; [set]
    stores the record it is given.  [stored] is the persisted record of a
    world. *)
Record AccessorContract `{Payloads} (E : Engine)
    (stored : World E -> option UserData) : Prop :=
  { get_reads : forall w, perform E AccessorGet w = (stored w, w);
    getOr_reads : forall d w,
      fst (perform E (AccessorGetOr d) w)
      = match stored w with Some u => u | None => d end
      /\ (stored (snd (perform E (AccessorGetOr d) w)) = stored w
          \/ (stored w = None
              /\ stored (snd (perform E (AccessorGetOr d) w)) = Some d));
    set_writes : forall u w,
      stored (snd (perform E (AccessorSet u) w)) = Some u }.

(** The locale of the persisted record, if any. *)
Definition storedLocale {W : Type} (stored : W -> option UserData) (w : W)
  : option string :=
  match stored w with Some u => locale u | None => None end.

(** ** A concrete engine

    A small bot to run the router on: the persisted user data, the stack of
    active dialogs (top first), whether a reply was sent this turn, and what
    the collaborators will answer. *)
Module Sample.

#[export] Instance payloads : Payloads :=
  {| Entities := list string; Value := string |}.

Record Bot : Type :=
  { userData : option UserData;
    dialogStack : list string;
    replied : bool;
    luis : RecognizerResult;            (* what the recognizer returns *)
    interrupts : bool;                  (* what the interruption policy says *)
    continuation : string;              (* status an active dialog reports *)
    dialogsReply : bool }.              (* whether a dialog step sends a reply *)

Definition setUserData (u : option UserData) (b : Bot) : Bot :=
  {| userData := u; dialogStack := dialogStack b; replied := replied b;
     luis := luis b; interrupts := interrupts b;
     continuation := continuation b; dialogsReply := dialogsReply b |}.

Definition setStack (s : list string) (r : bool) (b : Bot) : Bot :=
  {| userData := userData b; dialogStack := s; replied := r;
     luis := luis b; interrupts := interrupts b;
     continuation := continuation b; dialogsReply := dialogsReply b |}.

Definition turnResult (s : string) : DialogTurnResult :=
  {| status := s; result := None |}.

Definition answer (c : Call) : Bot -> Resp c * Bot :=
  match c return Bot -> Resp c * Bot with
  | AccessorGet => fun b => (userData b, b)
  | AccessorGetOr d =>
      fun b => (match userData b with Some u => u | None => d end, b)
  | AccessorSet u => fun b => (tt, setUserData (Some u) b)
  | SendActivity _ => fun b => (tt, setStack (dialogStack b) true b)
  | Recognize _ => fun b => (luis b, b)
  | IsTurnInterrupted _ => fun b => (interrupts b, b)
  | BeginDialog name _ =>
      fun b => (turnResult DialogTurnStatus.waiting,
                setStack (name :: dialogStack b)
                         (replied b || dialogsReply b) b)
  | ContinueDialog =>
      fun b =>
        match dialogStack b with
        | [] => (turnResult DialogTurnStatus.empty, b)
        | d :: s =>
            (turnResult (continuation b),
             setStack (if String.eqb (continuation b)
                                     DialogTurnStatus.waiting
                       then d :: s else [])
                      (replied b || dialogsReply b) b)
        end
  | RepromptDialog =>
      fun b => (tt, setStack (dialogStack b) true b)
  | CancelAllDialogs => fun b => (tt, setStack [] (replied b) b)
  end.

Definition engine : Engine :=
  {| World := Bot;
     activeDialog := fun b => hd_error (dialogStack b);
     responded := replied;
     perform := answer |}.

Definition localizer : Localizer :=
  {| gettext := fun locale key =>
       if String.eqb key "restartCommand" then
         if String.eqb locale "es-es" then "Reiniciar" else "Restart"
       else if String.eqb key "attachmentResponse" then
         if String.eqb locale "es-es" then "No entiendo los adjuntos."
         else "I do not understand attachments."
       else key;
     getLocale := "en-us";
     getLocales := ["en-us"; "es-es"] |}.

Definition message (t : string) (atts : option (list Attachment))
  : Activity :=
  {| type := ActivityTypes.Message;
     text := Some t;
     activity_locale := Some "es-es";
     attachments := atts;
     membersAdded := None;
     recipient := {| id := "bot" |} |}.

Definition recognized (l : list (string * Q)) : RecognizerResult :=
  {| intents := l; entities := ["Ana"] |}.

Definition options (e : list string) : @StepOptions payloads :=
  @Build_StepOptions payloads e.

(** A conversation at rest: nothing stored, no dialog active. *)
Definition idle : Bot :=
  {| userData := None; dialogStack := []; replied := false;
     luis := recognized [("Greeting", (9 # 10)%Q); ("None", (1 # 10)%Q)];
     interrupts := false;
     continuation := DialogTurnStatus.waiting;
     dialogsReply := true |}.

(** A conversation with [name] as the active dialog. *)
Definition within (name status : string) (replies interrupted : bool) : Bot :=
  {| userData := Some {| locale := Some "es-es" |};
     dialogStack := [name]; replied := false;
     luis := recognized [("Greeting", (4 # 10)%Q); ("None", (1 # 10)%Q)];
     interrupts := interrupted;
     continuation := status;
     dialogsReply := replies |}.

(** A user whose stored locale is not one of the supported locales. *)
Definition foreigner : Bot :=
  setUserData (Some {| locale := Some "xx" |}) idle.

End Sample.

(** ** Further observations *)

(** The dialogs the constructor adds to the component's dialog set (lines 55
    to 58), by [X.name]; the chit-chat dialog of line 60 is kept aside and
    not added. *)
Definition registeredDialogs : list string :=
  [QnADialog_name; CancelDialog_name; GreetingDialog_name; WelcomeDialog_name].

(** The members of [activity.membersAdded] that are the recipient of the
    activity (the test of line 257). *)
Definition addedRecipients (activity : Activity) : list ChannelAccount :=
  match membersAdded activity with
  | Some members =>
      filter (fun m => String.eqb (id m) (id (recipient activity))) members
  | None => []
  end.

(** [activity.text = t] *)
Definition with_text (activity : Activity) (t : option string) : Activity :=
  {| type := type activity;
     text := t;
     activity_locale := activity_locale activity;
     attachments := attachments activity;
     membersAdded := membersAdded activity;
     recipient := recipient activity |}.

(** The text with the given bytes. *)
Definition utf8 (bytes : list nat) : string :=
  fold_right (fun n s => String (ascii_of_nat n) s) EmptyString bytes.

(** White space only. *)
Fixpoint allWhiteSpace (s : string) : bool :=
  match s with
  | String c s' => isWhiteSpace c && allWhiteSpace s'
  | EmptyString => true
  end.

Definition startsWithWhiteSpace (s : string) : bool :=
  match s with
  | String c _ => isWhiteSpace c
  | EmptyString => false
  end.

Definition endsWithWhiteSpace (s : string) : bool :=
  startsWithWhiteSpace (JsString.rev s).

Definition isRecognize `{Payloads} (c : Call) : bool :=
  match c with Recognize _ => true | _ => false end.

Definition isRepromptDialog `{Payloads} (c : Call) : bool :=
  match c with RepromptDialog => true | _ => false end.

(** The calls whose result becomes the turn result. *)
Definition yieldsTurnResult `{Payloads} (c : Call) : bool :=
  isBeginDialog c || isContinueDialog c.

(** A second engine over the same world, nearer to the Bot Framework where
    the first one is simpler: a read with a default stores the default when
    nothing is stored, a dialog that ends is taken off the stack alone, and a
    reprompt sends nothing. *)
Module Layered.

Definition answer (c : Call) : Sample.Bot -> Resp c * Sample.Bot :=
  match c return Sample.Bot -> Resp c * Sample.Bot with
  | AccessorGetOr d =>
      fun b =>
        match Sample.userData b with
        | Some u => (u, b)
        | None => (d, Sample.setUserData (Some d) b)
        end
  | ContinueDialog =>
      fun b =>
        match Sample.dialogStack b with
        | [] => (Sample.turnResult DialogTurnStatus.empty, b)
        | d :: s =>
            (Sample.turnResult (Sample.continuation b),
             Sample.setStack
               (if String.eqb (Sample.continuation b) DialogTurnStatus.waiting
                then d :: s else s)
               (Sample.replied b || Sample.dialogsReply b) b)
        end
  | RepromptDialog => fun b => (tt, b)
  | c' => Sample.answer c'
  end.

Definition engine : Engine :=
  {| World := Sample.Bot;
     activeDialog := fun b => hd_error (Sample.dialogStack b);
     responded := Sample.replied;
     perform := answer |}.


End Layered.

(** Activities to run the router on. *)
Module Scenario.

Definition joined (members : list string) : Activity :=
  {| type := ActivityTypes.ConversationUpdate;
     text := None;
     activity_locale := Some "es-es";
     attachments := None;
     membersAdded := Some (map (fun n => {| id := n |}) members);
     recipient := {| id := "bot" |} |}.

(** A locale table whose restart command carries a leading blank. *)
Definition sloppy : Localizer :=
  {| gettext := fun _ key =>
       if String.eqb key "restartCommand" then " restart" else key;
     getLocale := "en-us";
     getLocales := ["en-us"] |}.

Definition typing : Activity :=
  {| type := "typing";
     text := None;
     activity_locale := None;
     attachments := None;
     membersAdded := None;
     recipient := {| id := "bot" |} |}.

End Scenario.

(** * Properties *)

(** ** Strings *)

Lemma toLowerCase_empty (s : string) : toLowerCase s = "" <-> s = "".
Proof. destruct s; cbn; split; intros; congruence. Qed.

Lemma length_zero (s : string) : (String.length s =? 0)%nat = true <-> s = "".
Proof. destruct s; cbn; split; intros; congruence. Qed.

Lemma eqb_neq_false (a b : string) : a <> b -> String.eqb a b = false.
Proof. intros. now apply String.eqb_neq. Qed.

(** Case analysis on the test the goal is stuck on. *)
Ltac branch :=
  match goal with
  | |- context [if ?b then _ else _] => destruct b eqn:?
  | |- context [match ?x with Some _ => _ | None => _ end] => destruct x eqn:?
  end; cbn.

(** Unfolding of the monad's operations. *)
Ltac run :=
  unfold bind, ret, Monad_Router, Router_bind, Router_ret, call, gets; cbn.

Section Properties.

Context `{Payloads} (E : Engine) (loc : Localizer).

(** ** The branches of [routeMessage] *)

Lemma attachmentOnly_true activity :
  attachmentOnly activity = true <->
  trim (orElse (text activity) "") = ""
  /\ exists a l, attachments activity = Some (a :: l).
Proof.
  unfold attachmentOnly, utteranceOf.
  rewrite andb_true_iff, length_zero, toLowerCase_empty.
  split; intros [Ht Ha]; split; auto.
  - destruct (attachments activity) as [[|a l]|]; try discriminate; eauto.
  - destruct Ha as (a & l & ->). reflexivity.
Qed.

Lemma text_not_attachmentOnly activity :
  trim (orElse (text activity) "") <> "" -> attachmentOnly activity = false.
Proof.
  intros Ht. destruct (attachmentOnly activity) eqn:A; auto.
  apply attachmentOnly_true in A. tauto.
Qed.

Lemma restart_not_attachmentOnly activity locale :
  toLowerCase (gettext loc locale "restartCommand") <> "" ->
  isRestart loc activity locale = true ->
  attachmentOnly activity = false.
Proof.
  unfold isRestart. intros Hne Hr. apply String.eqb_eq in Hr.
  apply text_not_attachmentOnly. intros Ht.
  apply Hne. rewrite <- Hr. unfold utteranceOf. now rewrite Ht.
Qed.

Lemma routeMessage_attachment activity locale w :
  attachmentOnly activity = true ->
  routeMessage E loc activity locale w
  = (call E (SendActivity (gettext loc locale "attachmentResponse")) ;;
     ret DIALOG_TURN_RESULT_DEFAULT) w.
Proof. intros A. unfold routeMessage. now rewrite A. Qed.

Lemma routeMessage_restart activity locale w :
  attachmentOnly activity = false ->
  isRestart loc activity locale = true ->
  routeMessage E loc activity locale w
  = (call E (AccessorSet (with_locale new_UserData (Some locale))) ;;
     call E CancelAllDialogs ;;
     call E (BeginDialog WelcomeDialog_name None)) w.
Proof. intros A R. unfold routeMessage. now rewrite A, R. Qed.

Lemma routeMessage_steps activity locale w :
  attachmentOnly activity = false ->
  isRestart loc activity locale = false ->
  routeMessage E loc activity locale w
  = mkOut (val (dispatched E locale w)) (post (dispatched E locale w))
          (calls (afterQnA E w) ++ Recognize locale
             :: calls (afterInterruption E locale w)
             ++ calls (dispatched E locale w)).
Proof. intros A R. unfold routeMessage. now rewrite A, R. Qed.

Lemma onContinueDialog_message activity w :
  type activity = ActivityTypes.Message ->
  let r := resolveLocale E loc activity w in
  let o := routeMessage E loc activity (val r) (post r) in
  onContinueDialog E loc activity w
  = mkOut (val o) (post o) (calls r ++ calls o).
Proof. intros T. unfold onContinueDialog. cbn. now rewrite T. Qed.

(** ** What each block issues *)

Lemma continueQnA_calls turnResult w :
  calls (continueQnA E turnResult w) = []
  \/ calls (continueQnA E turnResult w) = [ContinueDialog].
Proof.
  unfold continueQnA. cbn. repeat branch; auto.
Qed.

Lemma handleInterruption_calls topIntent turnResult w :
  exists rest,
    calls (handleInterruption E topIntent turnResult w)
    = IsTurnInterrupted topIntent :: rest
    /\ (rest = [] \/ rest = [RepromptDialog] \/ rest = [ContinueDialog]).
Proof.
  unfold handleInterruption. cbn.
  repeat branch; eauto 6.
Qed.

Lemma fallbackDispatch_calls results topIntent turnResult w :
  let o := fallbackDispatch E results topIntent turnResult w in
  calls o = []
  \/ calls o = [CancelAllDialogs]
  \/ exists name options, calls o = [BeginDialog name options].
Proof.
  unfold fallbackDispatch. cbn. repeat branch; eauto.
Qed.

Lemma routeMessage_steps_calls activity locale w :
  attachmentOnly activity = false ->
  isRestart loc activity locale = false ->
  forallb fromSteps (calls (routeMessage E loc activity locale w)) = true.
Proof.
  intros A R. rewrite routeMessage_steps by assumption. cbn [calls].
  pose proof (continueQnA_calls DIALOG_TURN_RESULT_DEFAULT w) as Hq.
  pose proof (handleInterruption_calls
                (effectiveIntent E locale w) (val (afterQnA E w))
                (post (classified E locale w))) as (rest & Hi & Hrest).
  pose proof (fallbackDispatch_calls
                (val (classified E locale w))
                (effectiveIntent E locale w)
                (val (afterInterruption E locale w))
                (post (afterInterruption E locale w))) as Hd.
  fold (afterQnA E w) in Hq.
  fold (afterInterruption E locale w) in Hi.
  fold (dispatched E locale w) in Hd. cbv zeta in Hd.
  rewrite Hi.
  destruct Hq as [-> | ->], Hrest as [-> | [-> | ->]],
           Hd as [-> | [-> | (name & options & ->)]].
  all: reflexivity.
Qed.

Lemma forallb_excludes (P Q : Call -> bool) (l : list Call) :
  (forall c, P c = true -> Q c = false) ->
  forallb P l = true -> existsb Q l = false.
Proof.
  intros PQ. induction l as [|c l IH]; cbn; [reflexivity|].
  rewrite andb_true_iff. intros [Hc Hl]. now rewrite (PQ c Hc), IH.
Qed.

Lemma routeMessage_sends activity locale w :
  attachmentOnly activity = false ->
  existsb isSendActivity (calls (routeMessage E loc activity locale w))
  = false.
Proof.
  intros A. destruct (isRestart loc activity locale) eqn:R.
  - now rewrite routeMessage_restart.
  - apply forallb_excludes with (P := fromSteps).
    + now intros [].
    + now apply routeMessage_steps_calls.
Qed.

Lemma routeMessage_reads activity locale w :
  existsb isAccessorGet (calls (routeMessage E loc activity locale w))
  = false.
Proof.
  destruct (attachmentOnly activity) eqn:A.
  - now rewrite routeMessage_attachment.
  - destruct (isRestart loc activity locale) eqn:R.
    + now rewrite routeMessage_restart.
    + apply forallb_excludes with (P := fromSteps).
      * now intros [].
      * now apply routeMessage_steps_calls.
Qed.

Lemma welcomeMembers_reads recipientId members turnResult w :
  existsb isAccessorGet
          (calls (welcomeMembers E recipientId members turnResult w))
  = false.
Proof.
  revert turnResult w.
  induction members as [|m members IH]; intros; [reflexivity|].
  cbn. rewrite existsb_app, IH, orb_false_r. branch; reflexivity.
Qed.

Lemma welcomeUser_reads activity w :
  existsb isAccessorGet (calls (welcomeUser E activity w)) = false.
Proof.
  unfold welcomeUser. destruct (membersAdded activity) as [[|m ms]|].
  all: auto using welcomeMembers_reads.
Qed.

(** ** Attachments *)

(** C7: a message turn whose trimmed text is empty and which carries at
    least one attachment issues exactly one call, the canned attachment
    reply in the locale the router was given, and returns the default
    waiting result; no dialog is begun or continued.  For a whole turn, the
    locale is the resolved one and the reply is the only call after locale
    resolution. *)
Theorem attachment_only_turn activity L w :
  trim (orElse (text activity) "") = "" ->
  (exists a l, attachments activity = Some (a :: l)) ->
  let reply := SendActivity (gettext loc L "attachmentResponse") in
  let o := routeMessage E loc activity L w in
  calls o = [reply]
  /\ val o = DIALOG_TURN_RESULT_DEFAULT
  /\ post o = snd (perform E reply w)
  /\ (type activity = ActivityTypes.Message ->
      let r := resolveLocale E loc activity w in
      let t := onContinueDialog E loc activity w in
      calls t
      = (calls r
         ++ [SendActivity (gettext loc (val r) "attachmentResponse")])%list
      /\ val t = DIALOG_TURN_RESULT_DEFAULT).
Proof.
  intros Ht Ha.
  assert (A : attachmentOnly activity = true)
    by (apply attachmentOnly_true; auto).
  cbv zeta. rewrite routeMessage_attachment by exact A.
  repeat split; try reflexivity.
  all: rewrite onContinueDialog_message by assumption; cbv zeta.
  all: now rewrite routeMessage_attachment by exact A.
Qed.

(** C9: when the trimmed text of a message turn is not empty, the
    attachments do not matter: the turn is routed as the same turn with any
    other attachments (none, in particular) would be, the router sends no
    reply of its own, and the attachment branch is not taken.  The turn goes
    through the routing procedure: on the restart command it resets the user
    data, cancels all dialogs and begins the Welcome dialog; otherwise it
    continues an active QnA dialog, calls the recognizer, asks the
    interruption policy, reprompts or continues, and ends with the fallback
    dispatch, whose outcome is the outcome of the turn. *)
Theorem text_turn_ignores_attachments activity atts L w :
  trim (orElse (text activity) "") <> "" ->
  let o := routeMessage E loc activity L w in
  let fresh := with_locale new_UserData (Some L) in
  let welcome :=
    perform E (BeginDialog WelcomeDialog_name None)
      (snd (perform E CancelAllDialogs
              (snd (perform E (AccessorSet fresh) w)))) in
  routeMessage E loc (with_attachments activity atts) L w = o
  /\ existsb isSendActivity (calls o) = false
  /\ attachmentOnly activity = false
  /\ (if isRestart loc activity L then
        calls o = [AccessorSet fresh; CancelAllDialogs;
                   BeginDialog WelcomeDialog_name None]
        /\ val o = fst welcome
        /\ post o = snd welcome
      else
        val o = val (dispatched E L w)
        /\ post o = post (dispatched E L w)
        /\ calls o
           = (calls (afterQnA E w) ++ Recognize L
                :: calls (afterInterruption E L w)
                ++ calls (dispatched E L w))%list
        /\ exists q i d,
            calls o
            = (q ++ Recognize L :: IsTurnInterrupted (effectiveIntent E L w)
                 :: i ++ d)%list
            /\ (q = [] \/ q = [ContinueDialog])
            /\ (i = [] \/ i = [RepromptDialog] \/ i = [ContinueDialog])
            /\ (d = [] \/ d = [CancelAllDialogs]
                \/ exists name options, d = [BeginDialog name options])).
Proof.
  intros Ht. cbv zeta.
  assert (A : attachmentOnly activity = false)
    by (now apply text_not_attachmentOnly).
  assert (A' : attachmentOnly (with_attachments activity atts) = false)
    by (now apply text_not_attachmentOnly).
  split; [unfold routeMessage; rewrite A, A'; reflexivity|].
  split; [now apply routeMessage_sends|]. split; [exact A|].
  destruct (isRestart loc activity L) eqn:R.
  - rewrite routeMessage_restart by assumption. repeat split.
  - rewrite routeMessage_steps by assumption. cbn [val post calls].
    repeat split.
    pose proof (continueQnA_calls DIALOG_TURN_RESULT_DEFAULT w) as Hq.
    pose proof (handleInterruption_calls
                  (effectiveIntent E L w) (val (afterQnA E w))
                  (post (classified E L w))) as (rest & Hi & Hrest).
    pose proof (fallbackDispatch_calls
                  (val (classified E L w)) (effectiveIntent E L w)
                  (val (afterInterruption E L w))
                  (post (afterInterruption E L w))) as Hd.
    fold (afterQnA E w) in Hq. fold (afterInterruption E L w) in Hi.
    fold (dispatched E L w) in Hd. cbv zeta in Hd.
    exists (calls (afterQnA E w)), rest, (calls (dispatched E L w)).
    rewrite Hi. repeat split; tauto.
Qed.

(** ** The stored locale *)

Lemma strictNe_true a b : strictNe a b = true <-> a <> b.
Proof.
  destruct a as [x|], b as [y|]; cbn; try (split; congruence).
  rewrite negb_true_iff, String.eqb_neq. split; congruence.
Qed.

Lemma setUserLocale_guard current newLocale :
  strictNe current newLocale && strictNe newLocale (Some "")
  && strictNe newLocale None = true
  <-> exists l, newLocale = Some l /\ l <> "" /\ current <> Some l.
Proof.
  rewrite !andb_true_iff, !strictNe_true. split.
  - intros [[Hc He] Hn]. destruct newLocale as [l|]; [|congruence].
    exists l. repeat split; congruence.
  - intros (l & -> & Hl & Hc). repeat split; congruence.
Qed.

Lemma setUserLocale_run newLocale w :
  let got := perform E (AccessorGetOr new_UserData) w in
  let write := AccessorSet (with_locale (fst got) newLocale) in
  setUserLocale E newLocale w
  = if strictNe (locale (fst got)) newLocale
       && strictNe newLocale (Some "") && strictNe newLocale None
    then mkOut tt (snd (perform E write (snd got)))
               [AccessorGetOr new_UserData; write]
    else mkOut tt (snd got) [AccessorGetOr new_UserData].
Proof.
  cbv zeta. unfold setUserLocale. run. branch; [|reflexivity].
  f_equal. match goal with |- ?x = tt => now destruct x end.
Qed.

Lemma getOr_run stored d w :
  AccessorContract E stored ->
  exists w',
    perform E (AccessorGetOr d) w
    = (match stored w with Some u => u | None => d end, w')
    /\ (stored w' = stored w \/ (stored w = None /\ stored w' = Some d)).
Proof.
  intros C. exists (snd (perform E (AccessorGetOr d) w)).
  destruct (getOr_reads _ _ C d w) as [Hv Hs]. split; [|exact Hs].
  transitivity (fst (perform E (AccessorGetOr d) w),
                snd (perform E (AccessorGetOr d) w)).
  - apply surjective_pairing.
  - f_equal. exact Hv.
Qed.

Lemma getOr_keeps (stored : World E -> option UserData) d w w' :
  stored w' = stored w \/ (stored w = None /\ stored w' = Some d) ->
  match stored w' with Some u => u | None => d end
  = match stored w with Some u => u | None => d end.
Proof. intros [-> | [-> ->]]; reflexivity. Qed.

(** C10, as the code has it: [setUserLocale] reads the record and nothing
    more when the new locale is undefined, empty or the locale of the record
    read, and it writes only a non-empty locale that differs from the one
    read.  Under the accessor's contract the stored record is, in the first
    case, as it was or, when none was stored, the default record that the
    read has created; the stored locale is as it was; and a stored non-empty
    locale is never replaced by an empty one. *)
Theorem setUserLocale_frame newLocale w :
  let got := perform E (AccessorGetOr new_UserData) w in
  let current := fst got in
  let o := setUserLocale E newLocale w in
  (newLocale = None \/ newLocale = Some "" \/ newLocale = locale current ->
   calls o = [AccessorGetOr new_UserData] /\ post o = snd got)
  /\ (existsb isAccessorSet (calls o) = true ->
      exists l,
        newLocale = Some l /\ l <> "" /\ locale current <> Some l
        /\ calls o = [AccessorGetOr new_UserData;
                      AccessorSet (with_locale current (Some l))])
  /\ (forall stored,
        AccessorContract E stored ->
        (newLocale = None \/ newLocale = Some ""
         \/ newLocale = locale current ->
         (stored (post o) = stored w
          \/ (stored w = None /\ stored (post o) = Some new_UserData))
         /\ storedLocale stored (post o) = storedLocale stored w)
        /\ (forall u l,
              stored w = Some u -> locale u = Some l -> l <> "" ->
              exists u' l',
                stored (post o) = Some u'
                /\ locale u' = Some l' /\ l' <> "")).
Proof.
  cbv zeta. rewrite setUserLocale_run. cbv zeta.
  destruct (strictNe _ _ && _ && _) eqn:G.
  - apply setUserLocale_guard in G. destruct G as (l & -> & Hl & Hc).
    split; [|split].
    + intros [D | [D | D]]; congruence.
    + intros _. exists l. auto.
    + intros stored C. split.
      * intros [D | [D | D]]; congruence.
      * intros u l0 _ _ _. cbn. eexists _, l.
        split; [apply (set_writes _ _ C)|]. auto.
  - assert (N : ~ exists l, newLocale = Some l /\ l <> ""
                 /\ locale (fst (perform E (AccessorGetOr new_UserData) w))
                    <> Some l)
      by (rewrite <- setUserLocale_guard; congruence).
    split; [|split].
    + auto.
    + cbn. discriminate.
    + intros stored C. cbn [post].
      destruct (getOr_reads _ _ C new_UserData w) as [_ Hs]. split.
      * intros _. split; [exact Hs|]. unfold storedLocale.
        destruct Hs as [-> | [-> ->]]; reflexivity.
      * intros u l Hu Hl Hne.
        destruct Hs as [Hs | [Hs _]]; [|congruence].
        rewrite Hs. eauto.
Qed.

Lemma resolveLocale_run activity w :
  let got := perform E AccessorGet w in
  let stored :=
    orElse (match fst got with Some u => locale u | None => None end) "" in
  let hint := orElse (activity_locale activity) (getLocale loc) in
  let fallback :=
    if includes (getLocales loc) hint then hint else getLocale loc in
  resolveLocale E loc activity w
  = if String.eqb stored "" then
      let s := setUserLocale E (Some fallback) (snd got) in
      mkOut fallback (post s) (AccessorGet :: calls s)
    else mkOut stored (snd got) [AccessorGet].
Proof.
  cbv zeta. unfold resolveLocale, getUserLocale.
  unfold bind, ret, Monad_Router, Router_bind, Router_ret, call.
  cbn -[setUserLocale].
  match goal with
  | |- context [match ?x with Some _ => _ | None => _ end] => destruct x
  end; cbn -[setUserLocale].
  - destruct (orElse (locale u) "" =? ""); [|reflexivity].
    destruct (includes _ _); cbn -[setUserLocale]; now rewrite app_nil_r.
  - destruct (includes _ _); cbn -[setUserLocale]; now rewrite app_nil_r.
Qed.

Lemma includes_In xs x : includes xs x = true -> In x xs.
Proof.
  unfold includes. rewrite existsb_exists.
  intros (y & Hy & Heq). apply String.eqb_eq in Heq. now subst.
Qed.

Lemma setUserLocale_twice stored l w :
  AccessorContract E stored ->
  (List.length
     (filter isAccessorSet
             (calls ((setUserLocale E l ;; setUserLocale E l) w))) <= 1)%nat.
Proof.
  intros C. unfold bind, Monad_Router, Router_bind. cbn [calls val post].
  rewrite (setUserLocale_run l w). cbv zeta.
  destruct (getOr_run stored new_UserData w C) as (w' & Hp & Hs).
  rewrite Hp. cbn [fst snd].
  destruct (strictNe _ _ && _ && _) eqn:G; cbn [post calls];
    rewrite setUserLocale_run; cbv zeta.
  - match goal with
    | |- context [perform E (AccessorGetOr new_UserData) ?w2] =>
        destruct (getOr_run stored new_UserData w2 C) as (w3 & Hp2 & _);
        rewrite Hp2
    end.
    cbn [fst snd]. rewrite (set_writes _ _ C). cbn [locale with_locale].
    assert (N : strictNe l l = false)
      by (destruct (strictNe l l) eqn:N; auto;
          apply strictNe_true in N; congruence).
    rewrite N. cbn. lia.
  - destruct (getOr_run stored new_UserData w' C) as (w3 & Hp2 & _).
    rewrite Hp2. cbn [fst snd]. rewrite (getOr_keeps stored _ _ _ Hs), G.
    cbn. lia.
Qed.

Lemma orElse_empty_Some v : orElse (Some v) "" <> "" -> orElse (Some v) "" = v.
Proof. cbn. now destruct (String.eqb v ""). Qed.

Lemma resolveLocale_persisted stored activity w :
  AccessorContract E stored ->
  let r := resolveLocale E loc activity w in
  val r <> "" ->
  exists u, stored (post r) = Some u /\ locale u = Some (val r).
Proof.
  intros C. cbv zeta. rewrite resolveLocale_run. cbv zeta.
  rewrite (get_reads _ _ C). cbn [fst snd].
  set (fallback := if includes _ _ then _ else _).
  destruct (String.eqb_spec
              (orElse match stored w with
                      | Some u => locale u
                      | None => None
                      end "") "") as [S | S]; cbn [val post].
  - intros Hf. rewrite setUserLocale_run. cbv zeta.
    destruct (getOr_run stored new_UserData w C) as (w' & Hp & _).
    rewrite Hp. cbn [fst snd].
    destruct (strictNe _ _ && _ && _) eqn:G; cbn [post].
    + eexists. split; [apply (set_writes _ _ C)|reflexivity].
    + exfalso.
      assert (N : ~ exists l, Some fallback = Some l /\ l <> ""
                     /\ locale match stored w with
                                | Some u => u
                                | None => new_UserData
                                end <> Some l)
        by (rewrite <- setUserLocale_guard; congruence).
      apply N. exists fallback. repeat split; auto.
      destruct (stored w) as [u|]; [|discriminate].
      intros Hl. rewrite Hl in S. unfold orElse in S.
      destruct (String.eqb_spec fallback "") as [e | n];
        [exact (Hf e) | exact (Hf S)].
  - intros _. destruct (stored w) as [u|] eqn:Hs; [|now cbn in S].
    exists u. split; [reflexivity|].
    destruct (locale u) as [v|] eqn:Hl; [|now cbn in S].
    now rewrite orElse_empty_Some.
Qed.

(** ** The restart command *)

(** C1: on a message turn whose utterance is the localized restart command
    (a non-empty string), compared without regard to case, the router
    issues three calls and no other: it persists a fresh [UserData] that
    holds the locale only, cancels all dialogs and begins the Welcome
    dialog, whose result it returns.  The recognizer and the interruption
    policy are not called.  Under the accessor's contract the record stored
    after the reset has the locale it had before; this is the case of a turn
    entered through [onContinueDialog], where locale resolution has left the
    resolved locale in the stored record. *)
Theorem restart_command activity L w :
  toLowerCase (gettext loc L "restartCommand") <> "" ->
  utteranceOf activity = toLowerCase (gettext loc L "restartCommand") ->
  let fresh := with_locale new_UserData (Some L) in
  let w1 := snd (perform E (AccessorSet fresh) w) in
  let w2 := snd (perform E CancelAllDialogs w1) in
  let welcome := perform E (BeginDialog WelcomeDialog_name None) w2 in
  let o := routeMessage E loc activity L w in
  calls o
  = [AccessorSet fresh; CancelAllDialogs; BeginDialog WelcomeDialog_name None]
  /\ fresh = {| locale := Some L |}
  /\ val o = fst welcome
  /\ post o = snd welcome
  /\ (forall stored u0,
        AccessorContract E stored ->
        stored w = Some u0 -> locale u0 = Some L ->
        exists u1, stored w1 = Some u1 /\ locale u1 = locale u0)
  /\ (forall stored w0,
        AccessorContract E stored ->
        L <> "" ->
        L = val (resolveLocale E loc activity w0) ->
        w = post (resolveLocale E loc activity w0) ->
        exists u0 u1,
          stored w = Some u0 /\ stored w1 = Some u1
          /\ locale u1 = locale u0).
Proof.
  intros Hne Hu.
  assert (R : isRestart loc activity L = true)
    by (unfold isRestart; now apply String.eqb_eq).
  assert (A : attachmentOnly activity = false)
    by (eapply restart_not_attachmentOnly; eauto).
  cbv zeta. rewrite routeMessage_restart by assumption.
  repeat split.
  - intros stored u0 C _ Hl. eexists. split.
    + apply (set_writes _ _ C).
    + now rewrite Hl.
  - intros stored w0 C HL -> ->.
    destruct (resolveLocale_persisted stored activity w0 C HL)
      as (u0 & Hs & Hl).
    exists u0. eexists. split; [exact Hs|]. split.
    + apply (set_writes _ _ C).
    + now rewrite Hl.
Qed.

Lemma onContinueDialog_calls activity w :
  let r := resolveLocale E loc activity w in
  exists rest,
    calls (onContinueDialog E loc activity w) = (calls r ++ rest)%list
    /\ existsb isAccessorGet rest = false
    /\ (type activity = ActivityTypes.Message ->
        rest = calls (routeMessage E loc activity (val r) (post r))).
Proof.
  cbv zeta. unfold onContinueDialog.
  unfold bind, ret, Monad_Router, Router_bind, Router_ret.
  cbn [calls val post].
  destruct (type activity =? ActivityTypes.Message) eqn:T.
  - eexists. split; [reflexivity|]. split; [apply routeMessage_reads|auto].
  - apply String.eqb_neq in T.
    destruct (type activity =? ActivityTypes.ConversationUpdate).
    + eexists. split; [reflexivity|].
      split; [apply welcomeUser_reads|congruence].
    + exists []. repeat split; congruence.
Qed.

(** C3, as the code has it: a stored locale that is not empty is used as
    it is, without a look at the supported locales, and nothing is written.
    Only when nothing is stored (no record, no locale or the empty string)
    is the locale the turn's hint, or the library default when there is no
    hint, with a value outside the supported locales replaced by the
    default; it is then a supported locale or the default.  The resolution
    opens the turn and is not repeated: what follows reads the accessor no
    more, and a message is routed with the resolved locale.  The resolution
    writes only a non-empty locale that differs from the one read, and
    under the accessor's contract setting the same locale twice writes at
    most once. *)
Theorem locale_resolution activity w :
  let got := perform E AccessorGet w in
  let stored :=
    orElse (match fst got with Some u => locale u | None => None end) "" in
  let hint := orElse (activity_locale activity) (getLocale loc) in
  let r := resolveLocale E loc activity w in
  let turn := onContinueDialog E loc activity w in
  (stored <> "" -> val r = stored /\ calls r = [AccessorGet])
  /\ (stored = "" ->
      val r = (if includes (getLocales loc) hint then hint
               else getLocale loc)
      /\ (In (val r) (getLocales loc) \/ val r = getLocale loc))
  /\ (exists rest,
        calls turn = (calls r ++ rest)%list
        /\ hd_error (calls turn) = Some AccessorGet
        /\ existsb isAccessorGet rest = false
        /\ (type activity = ActivityTypes.Message ->
            rest = calls (routeMessage E loc activity (val r) (post r))))
  /\ (forall u,
        In (AccessorSet u) (calls r) ->
        let read := fst (perform E (AccessorGetOr new_UserData) (snd got)) in
        stored = ""
        /\ u = with_locale read (Some (val r))
        /\ locale read <> Some (val r)
        /\ val r <> "")
  /\ (forall persisted l w0,
        AccessorContract E persisted ->
        (List.length
           (filter isAccessorSet
              (calls ((setUserLocale E l ;; setUserLocale E l) w0)))
         <= 1)%nat).
Proof.
  cbv zeta.
  destruct (onContinueDialog_calls activity w) as (rest & Hc & Hr & Hm).
  rewrite Hc. clear Hc. revert Hm. rewrite resolveLocale_run. cbv zeta.
  set (stored := orElse _ "").
  set (fallback := if includes _ _ then _ else _).
  intros Hm.
  assert (Hf : In fallback (getLocales loc) \/ fallback = getLocale loc).
  { subst fallback. destruct (includes _ _) eqn:I; auto using includes_In. }
  destruct (stored =? "") eqn:S.
  - apply String.eqb_eq in S. cbn [val calls post] in *.
    split; [congruence|]. split; [auto|].
    split; [exists rest; auto|]. split.
    + intros u [D | Hu]; [discriminate|]. revert Hu.
      rewrite setUserLocale_run. cbv zeta.
      destruct (strictNe _ _ && _ && _) eqn:G; cbn [calls].
      * apply setUserLocale_guard in G.
        destruct G as (l & Hl & Hne & Hd). injection Hl as <-.
        intros [D | [D | []]]; [discriminate|]. injection D as <-. auto.
      * intros [D | []]. discriminate.
    + intros persisted l w0 C. now apply setUserLocale_twice with persisted.
  - apply String.eqb_neq in S. cbn [val calls post] in *.
    split; [auto|]. split; [congruence|].
    split; [exists rest; auto|]. split.
    + intros u [D | []]. discriminate.
    + intros persisted l w0 C. now apply setUserLocale_twice with persisted.
Qed.

(** ** The effective top intent *)

Lemma topScoring_In l name score :
  topScoring l = Some (name, score) -> In (name, score) l.
Proof.
  revert name score. induction l as [|[n q] l IH]; cbn; [discriminate|].
  intros name score. destruct (topScoring l) as [[n' q']|].
  - destruct (Qle_bool q' q); intros [= <- <-]; auto.
  - intros [= <- <-]. auto.
Qed.

Lemma topIntent_below results :
  Forall (fun p => (snd p < LUIS_CONFIDENCE_THRESHOLD)%Q) (intents results) ->
  LuisRecognizer_topIntent results None LUIS_CONFIDENCE_THRESHOLD
  = NONE_INTENT.
Proof.
  intros Hall. unfold LuisRecognizer_topIntent.
  destruct (topScoring (intents results)) as [[name score]|] eqn:T;
    [|reflexivity].
  apply topScoring_In in T. rewrite Forall_forall in Hall.
  specialize (Hall _ T). cbn in Hall.
  destruct (Qle_bool LUIS_CONFIDENCE_THRESHOLD score) eqn:Q; [|reflexivity].
  apply Qle_bool_iff in Q. exfalso. revert Q. now apply Qlt_not_le.
Qed.

(** ** Fallback dispatch *)

Lemma fallbackDispatch_idle results topIntent turnResult w :
  responded E w = true
  \/ status turnResult = DialogTurnStatus.waiting
  \/ status turnResult = DialogTurnStatus.complete ->
  fallbackDispatch E results topIntent turnResult w = mkOut turnResult w [].
Proof.
  unfold fallbackDispatch. run.
  intros [R | [S | S]]; rewrite ?R, ?S; cbn; [reflexivity| |];
    now destruct (responded E w).
Qed.

Lemma fallbackDispatch_greeting results turnResult w :
  responded E w = false ->
  status turnResult = DialogTurnStatus.empty ->
  let begin :=
    BeginDialog GreetingDialog_name
                (Some {| options_entities := entities results |}) in
  fallbackDispatch E results GREETING_INTENT turnResult w
  = mkOut (fst (perform E begin w)) (snd (perform E begin w)) [begin].
Proof. intros R S. unfold fallbackDispatch. run. now rewrite R, S. Qed.

Lemma fallbackDispatch_qna results topIntent turnResult w :
  responded E w = false ->
  status turnResult = DialogTurnStatus.empty ->
  topIntent <> GREETING_INTENT ->
  let begin := BeginDialog QnADialog_name None in
  fallbackDispatch E results topIntent turnResult w
  = mkOut (fst (perform E begin w)) (snd (perform E begin w)) [begin].
Proof.
  intros R S T. unfold fallbackDispatch. run. rewrite R, S. cbn.
  now rewrite (eqb_neq_false _ _ T).
Qed.

Lemma fallbackDispatch_reset results topIntent turnResult w :
  responded E w = false ->
  status turnResult <> DialogTurnStatus.empty ->
  status turnResult <> DialogTurnStatus.waiting ->
  status turnResult <> DialogTurnStatus.complete ->
  fallbackDispatch E results topIntent turnResult w
  = mkOut turnResult (snd (perform E CancelAllDialogs w)) [CancelAllDialogs].
Proof.
  intros R S1 S2 S3. unfold fallbackDispatch. run. rewrite R. cbn.
  now rewrite (eqb_neq_false _ _ S1), (eqb_neq_false _ _ S2),
              (eqb_neq_false _ _ S3).
Qed.

Lemma fallbackDispatch_begins results topIntent turnResult w :
  existsb isBeginDialog
          (calls (fallbackDispatch E results topIntent turnResult w)) = true
  <-> responded E w = false
      /\ status turnResult = DialogTurnStatus.empty.
Proof.
  destruct (responded E w) eqn:R.
  { rewrite fallbackDispatch_idle by auto. cbn. split; [|intros []]; easy. }
  destruct (String.eqb_spec (status turnResult) DialogTurnStatus.empty)
    as [S | S].
  { destruct (String.eqb_spec topIntent GREETING_INTENT) as [-> | T].
    - rewrite fallbackDispatch_greeting by auto. cbn. tauto.
    - rewrite fallbackDispatch_qna by auto. cbn. tauto. }
  destruct (String.eqb_spec (status turnResult) DialogTurnStatus.waiting)
    as [S2 | S2].
  { rewrite fallbackDispatch_idle by auto. cbn. split; [|intros []]; easy. }
  destruct (String.eqb_spec (status turnResult) DialogTurnStatus.complete)
    as [S3 | S3].
  { rewrite fallbackDispatch_idle by auto. cbn. split; [|intros []]; easy. }
  rewrite fallbackDispatch_reset by auto. cbn. split; [|intros []]; easy.
Qed.

(** C2: on a message turn that is neither an attachment-only turn nor a
    restart, the router begins a dialog in its last step exactly when no
    reply was sent so far this turn and the status left by the interruption
    or continuation step is empty.  It then begins the Greeting dialog with
    the recognized entities as options when the effective top intent is
    Greeting, and the QnA dialog without options for every other intent;
    the result of the dialog begun is the result of the turn.  On status
    waiting or complete, and when a reply was sent, it does nothing
    more. *)
Theorem fallback_dispatch activity L w :
  attachmentOnly activity = false ->
  isRestart loc activity L = false ->
  let before := afterInterruption E L w in
  let intent := effectiveIntent E L w in
  let d := dispatched E L w in
  let greet :=
    BeginDialog GreetingDialog_name
      (Some {| options_entities := entities (val (classified E L w)) |}) in
  let qna := BeginDialog QnADialog_name None in
  let o := routeMessage E loc activity L w in
  (calls o = (calls (afterQnA E w) ++ Recognize L :: calls before
              ++ calls d)%list
   /\ val o = val d /\ post o = post d)
  /\ (existsb isBeginDialog (calls d) = true
      <-> responded E (post before) = false
          /\ status (val before) = DialogTurnStatus.empty)
  /\ (responded E (post before) = false ->
      status (val before) = DialogTurnStatus.empty ->
      if String.eqb intent GREETING_INTENT then
        calls d = [greet]
        /\ val d = fst (perform E greet (post before))
        /\ post d = snd (perform E greet (post before))
      else
        calls d = [qna]
        /\ val d = fst (perform E qna (post before))
        /\ post d = snd (perform E qna (post before)))
  /\ (responded E (post before) = true
      \/ status (val before) = DialogTurnStatus.waiting
      \/ status (val before) = DialogTurnStatus.complete ->
      calls d = [] /\ val d = val before /\ post d = post before).
Proof.
  intros A R. cbv zeta. rewrite routeMessage_steps by assumption.
  split; [auto|]. split; [apply fallbackDispatch_begins|]. split.
  - intros Hr Hs. unfold dispatched.
    destruct (String.eqb_spec (effectiveIntent E L w) GREETING_INTENT)
      as [-> | T].
    + now rewrite fallbackDispatch_greeting.
    + now rewrite fallbackDispatch_qna.
  - intros Hi. unfold dispatched. now rewrite fallbackDispatch_idle.
Qed.

(** C4: when the recognizer scores every intent of the utterance below
    0.7, the effective top intent is None, whatever the best scoring label
    is: the interruption policy is asked about None and the fallback
    dispatch does not begin the Greeting dialog. *)
Theorem low_confidence_is_None activity L w :
  attachmentOnly activity = false ->
  isRestart loc activity L = false ->
  Forall (fun p => (snd p < LUIS_CONFIDENCE_THRESHOLD)%Q)
         (intents (val (classified E L w))) ->
  effectiveIntent E L w = NONE_INTENT
  /\ (exists rest,
        calls (afterInterruption E L w)
        = IsTurnInterrupted NONE_INTENT :: rest)
  /\ (forall options,
        ~ In (BeginDialog GreetingDialog_name options)
             (calls (dispatched E L w)))
  /\ val (routeMessage E loc activity L w) = val (dispatched E L w).
Proof.
  intros A R Hall.
  assert (T : effectiveIntent E L w = NONE_INTENT)
    by (now apply topIntent_below).
  split; [exact T|]. split; [|split].
  - destruct (handleInterruption_calls
                (effectiveIntent E L w) (val (afterQnA E w))
                (post (classified E L w))) as (rest & Hi & _).
    exists rest. unfold afterInterruption. now rewrite Hi, T.
  - intros options. unfold dispatched. rewrite T.
    destruct (responded E (post (afterInterruption E L w))) eqn:Hr.
    { rewrite fallbackDispatch_idle by auto. intros []. }
    destruct (String.eqb_spec (status (val (afterInterruption E L w)))
                              DialogTurnStatus.empty) as [S | S].
    { rewrite fallbackDispatch_qna by (auto; discriminate).
      intros [D | []]. discriminate. }
    destruct (String.eqb_spec (status (val (afterInterruption E L w)))
                              DialogTurnStatus.waiting) as [S2 | S2].
    { rewrite fallbackDispatch_idle by auto. intros []. }
    destruct (String.eqb_spec (status (val (afterInterruption E L w)))
                              DialogTurnStatus.complete) as [S3 | S3].
    { rewrite fallbackDispatch_idle by auto. intros []. }
    rewrite fallbackDispatch_reset by auto. intros [D | []]. discriminate.
  - now rewrite routeMessage_steps.
Qed.

(** ** An active QnA dialog *)

Lemma continueQnA_active turnResult w :
  activeDialog E w = Some QnADialog_name ->
  let c := perform E ContinueDialog w in
  continueQnA E turnResult w
  = mkOut (if String.eqb (status (fst c)) "complete"
           then with_status (fst c) DialogTurnStatus.empty
           else fst c)
          (snd c) [ContinueDialog].
Proof.
  intros Ha. cbv zeta. unfold continueQnA. run. rewrite Ha. cbn.
  now destruct (String.eqb _ "complete").
Qed.

Lemma continueQnA_inactive turnResult w :
  activeDialog E w <> Some QnADialog_name ->
  continueQnA E turnResult w = mkOut turnResult w [].
Proof.
  intros Ha. unfold continueQnA. run.
  destruct (activeDialog E w) as [name|]; [|reflexivity].
  destruct (String.eqb_spec name QnADialog_name); [congruence|reflexivity].
Qed.

(** ** The interruption step *)

Lemma handleInterruption_interrupted topIntent turnResult w :
  let asked := perform E (IsTurnInterrupted topIntent) w in
  let wi := snd asked in
  fst asked = true ->
  handleInterruption E topIntent turnResult w
  = match activeDialog E wi with
    | Some name =>
        if String.eqb name CancelDialog_name then
          mkOut (fst (perform E ContinueDialog wi))
                (snd (perform E ContinueDialog wi))
                [IsTurnInterrupted topIntent; ContinueDialog]
        else
          mkOut turnResult (snd (perform E RepromptDialog wi))
                [IsTurnInterrupted topIntent; RepromptDialog]
    | None => mkOut turnResult wi [IsTurnInterrupted topIntent]
    end.
Proof.
  cbv zeta. intros Hi. unfold handleInterruption. run.
  unfold Resp in *. rewrite Hi.
  destruct (activeDialog E _) as [name|]; [|reflexivity].
  now destruct (String.eqb name CancelDialog_name).
Qed.

(** C5: on a message turn that is neither an attachment-only turn nor a
    restart, with the QnA dialog active, the router continues that dialog
    first, before it calls the recognizer and the interruption policy.  When
    the continuation reports complete, the status handed on is empty, with
    the result left as it is; with an interruption reported, no dialog
    active and no reply sent, the fallback dispatch then begins a
    dialog. *)
Theorem active_QnA_continued_first activity L w :
  attachmentOnly activity = false ->
  isRestart loc activity L = false ->
  activeDialog E w = Some QnADialog_name ->
  let c := perform E ContinueDialog w in
  let q := afterQnA E w in
  let intent := effectiveIntent E L w in
  let asked := perform E (IsTurnInterrupted intent) (post (classified E L w)) in
  (exists rest,
     calls (routeMessage E loc activity L w)
     = ContinueDialog :: Recognize L :: IsTurnInterrupted intent :: rest)
  /\ calls q = [ContinueDialog]
  /\ post q = snd c
  /\ val q = (if String.eqb (status (fst c)) "complete"
              then with_status (fst c) DialogTurnStatus.empty
              else fst c)
  /\ (status (fst c) = DialogTurnStatus.complete ->
      status (val q) = DialogTurnStatus.empty
      /\ result (val q) = result (fst c))
  /\ (status (fst c) = DialogTurnStatus.complete ->
      fst asked = true ->
      activeDialog E (snd asked) = None ->
      responded E (snd asked) = false ->
      existsb isBeginDialog (calls (dispatched E L w)) = true).
Proof.
  intros A R Ha. cbv zeta.
  pose proof (continueQnA_active DIALOG_TURN_RESULT_DEFAULT w Ha) as Hq.
  cbv zeta in Hq. fold (afterQnA E w) in Hq.
  assert (Hs : status (fst (perform E ContinueDialog w))
               = DialogTurnStatus.complete ->
               status (val (afterQnA E w)) = DialogTurnStatus.empty
               /\ result (val (afterQnA E w))
                  = result (fst (perform E ContinueDialog w))).
  { intros S. rewrite Hq. cbn [val]. unfold Resp in *. rewrite S.
    now cbn. }
  split; [|split; [|split; [|split; [|split]]]].
  - rewrite routeMessage_steps by assumption. cbn [calls].
    destruct (handleInterruption_calls
                (effectiveIntent E L w) (val (afterQnA E w))
                (post (classified E L w))) as (rest & Hi & _).
    fold (afterInterruption E L w) in Hi. rewrite Hi, Hq. cbn. eauto.
  - now rewrite Hq.
  - now rewrite Hq.
  - now rewrite Hq.
  - exact Hs.
  - intros S Hi Hn Hr. apply fallbackDispatch_begins.
    unfold afterInterruption.
    rewrite handleInterruption_interrupted by exact Hi.
    cbv zeta. rewrite Hn. cbn [val post]. split; [exact Hr|].
    now apply Hs.
Qed.


(** C8, as the code has it: the status is looked at only when no reply was
    sent this turn.  If it is then none of empty, waiting and complete, the
    router cancels all dialogs and issues no other call; when a reply was
    sent, it issues no call and the stack is left as it is.  Either way the
    turn result is returned unchanged, with the status the dialog
    reported. *)
Theorem anomalous_status_reset activity L w :
  attachmentOnly activity = false ->
  isRestart loc activity L = false ->
  let before := afterInterruption E L w in
  let d := dispatched E L w in
  status (val before) <> DialogTurnStatus.empty ->
  status (val before) <> DialogTurnStatus.waiting ->
  status (val before) <> DialogTurnStatus.complete ->
  (responded E (post before) = false ->
   calls d = [CancelAllDialogs]
   /\ post d = snd (perform E CancelAllDialogs (post before)))
  /\ (responded E (post before) = true ->
      calls d = [] /\ post d = post before)
  /\ val d = val before
  /\ val (routeMessage E loc activity L w) = val before.
Proof.
  intros A R. cbv zeta. intros S1 S2 S3.
  rewrite routeMessage_steps by assumption. cbn [val]. unfold dispatched.
  destruct (responded E (post (afterInterruption E L w))) eqn:Hr.
  - rewrite fallbackDispatch_idle by auto. repeat split; congruence.
  - rewrite fallbackDispatch_reset by auto. repeat split; congruence.
Qed.

End Properties.

(** * The properties on the concrete engine *)

Lemma Sample_accessor : AccessorContract Sample.engine Sample.userData.
Proof. split; intros; cbn; auto. Qed.

Lemma attachment_only_turn_witness :
  let activity := Sample.message "   " (Some ["photo.png"]) in
  trim (orElse (text activity) "") = ""
  /\ calls (routeMessage Sample.engine Sample.localizer activity "es-es"
                         Sample.idle)
     = [SendActivity "No entiendo los adjuntos."].
Proof.
  split; [reflexivity|].
  apply (attachment_only_turn Sample.engine Sample.localizer
           (Sample.message "   " (Some ["photo.png"])) "es-es" Sample.idle).
  - reflexivity.
  - eexists _, _. reflexivity.
Defined.

Lemma text_turn_ignores_attachments_witness :
  let activity := Sample.message "hola" (Some ["photo.png"]) in
  trim (orElse (text activity) "") = "hola"
  /\ calls (routeMessage Sample.engine Sample.localizer activity "es-es"
                         Sample.idle)
     = [Recognize "es-es"; IsTurnInterrupted GREETING_INTENT; ContinueDialog;
        BeginDialog GreetingDialog_name (Some (Sample.options ["Ana"]))]
  /\ routeMessage Sample.engine Sample.localizer
                  (with_attachments activity None) "es-es" Sample.idle
     = routeMessage Sample.engine Sample.localizer activity "es-es"
                    Sample.idle.
Proof.
  split; [reflexivity|].
  destruct (text_turn_ignores_attachments Sample.engine Sample.localizer
              (Sample.message "hola" (Some ["photo.png"])) None "es-es"
              Sample.idle)
    as (Hsame & _ & _ & _ & _ & Hcalls & _); [discriminate|].
  split; [|exact Hsame]. rewrite Hcalls. reflexivity.
Defined.

Lemma restart_command_witness :
  let activity := Sample.message "  REINICIAR " None in
  let w := Sample.within GreetingDialog_name DialogTurnStatus.waiting true false in
  utteranceOf activity = "reiniciar"
  /\ calls (routeMessage Sample.engine Sample.localizer activity "es-es" w)
     = [AccessorSet {| locale := Some "es-es" |}; CancelAllDialogs;
        BeginDialog WelcomeDialog_name None].
Proof.
  split; [reflexivity|].
  apply (restart_command Sample.engine Sample.localizer
           (Sample.message "  REINICIAR " None) "es-es"
           (Sample.within GreetingDialog_name DialogTurnStatus.waiting
                          true false)).
  - discriminate.
  - reflexivity.
Defined.

Lemma Layered_accessor : AccessorContract Layered.engine Sample.userData.
Proof.
  split; intros; cbn; auto.
  destruct (Sample.userData w) eqn:U; cbn; auto.
Qed.

Lemma setUserLocale_frame_witness :
  let o := setUserLocale Layered.engine (Some "") Sample.idle in
  calls o = [AccessorGetOr new_UserData]
  /\ storedLocale Sample.userData (post o)
     = storedLocale Sample.userData Sample.idle.
Proof.
  cbv zeta.
  destruct (setUserLocale_frame Layered.engine (Some "") Sample.idle)
    as (Hread & _ & Hstore).
  split.
  - apply Hread. auto.
  - apply (Hstore Sample.userData Layered_accessor). auto.
Defined.

(** With nothing stored, setting the empty locale issues no write, and yet
    the persisted record is no longer what it was: the read has created
    it. *)
Lemma setUserLocale_creates_record :
  let o := setUserLocale Layered.engine (Some "") Sample.idle in
  calls o = [AccessorGetOr new_UserData]
  /\ Sample.userData Sample.idle = None
  /\ Sample.userData (post o) = Some new_UserData
  /\ Sample.userData (post o) <> Sample.userData Sample.idle.
Proof. cbv zeta. repeat split. discriminate. Qed.

Lemma locale_resolution_witness :
  let activity := Sample.message "hola" None in
  val (resolveLocale Sample.engine Sample.localizer activity Sample.idle)
  = "es-es"
  /\ In "es-es" (getLocales Sample.localizer).
Proof.
  cbv zeta.
  destruct (locale_resolution Sample.engine Sample.localizer
              (Sample.message "hola" None) Sample.idle)
    as (_ & Hfallback & _).
  destruct (Hfallback eq_refl) as [Hv _].
  split; [exact Hv|]. cbn. auto.
Defined.

(** A stored locale outside the supported locales is the resolved locale. *)
Lemma stored_locale_not_validated :
  let r := resolveLocale Sample.engine Sample.localizer
                         (Sample.message "hola" None) Sample.foreigner in
  val r = "xx" /\ ~ In (val r) (getLocales Sample.localizer).
Proof.
  cbv zeta. split; [reflexivity|].
  cbn. intros [D | [D | []]]; discriminate.
Qed.

Lemma fallback_dispatch_witness :
  let activity := Sample.message "hola" None in
  calls (routeMessage Sample.engine Sample.localizer activity "es-es"
                      Sample.idle)
  = [Recognize "es-es"; IsTurnInterrupted GREETING_INTENT; ContinueDialog;
     BeginDialog GreetingDialog_name (Some (Sample.options ["Ana"]))].
Proof.
  cbv zeta.
  destruct (fallback_dispatch Sample.engine Sample.localizer
              (Sample.message "hola" None) "es-es" Sample.idle
              eq_refl eq_refl)
    as ((Hc & _) & _ & Hfires & _).
  rewrite Hc. specialize (Hfires eq_refl eq_refl).
  destruct Hfires as (-> & _). reflexivity.
Defined.

Lemma low_confidence_is_None_witness :
  let activity := Sample.message "hola" None in
  let w := Sample.within GreetingDialog_name DialogTurnStatus.waiting true false in
  intents (val (classified Sample.engine "es-es" w))
  = [("Greeting", (4 # 10)%Q); ("None", (1 # 10)%Q)]
  /\ effectiveIntent Sample.engine "es-es" w = NONE_INTENT.
Proof.
  split; [reflexivity|].
  apply (low_confidence_is_None Sample.engine Sample.localizer
           (Sample.message "hola" None) "es-es"
           (Sample.within GreetingDialog_name DialogTurnStatus.waiting
                          true false)
           eq_refl eq_refl).
  repeat constructor.
Defined.

Lemma active_QnA_continued_first_witness :
  let activity := Sample.message "hola" None in
  let w := Sample.within QnADialog_name DialogTurnStatus.complete false true in
  status (val (afterQnA Sample.engine w)) = DialogTurnStatus.empty
  /\ existsb isBeginDialog (calls (dispatched Sample.engine "es-es" w)) = true.
Proof.
  cbv zeta.
  destruct (active_QnA_continued_first Sample.engine Sample.localizer
              (Sample.message "hola" None) "es-es"
              (Sample.within QnADialog_name DialogTurnStatus.complete
                             false true)
              eq_refl eq_refl eq_refl)
    as (_ & _ & _ & _ & Hs & Hb).
  split.
  - apply Hs. reflexivity.
  - apply Hb; reflexivity.
Defined.



Lemma anomalous_status_reset_witness :
  let activity := Sample.message "hola" None in
  let w := Sample.within GreetingDialog_name DialogTurnStatus.cancelled false false in
  status (val (afterInterruption Sample.engine "es-es" w))
  = DialogTurnStatus.cancelled
  /\ calls (dispatched Sample.engine "es-es" w) = [CancelAllDialogs].
Proof.
  split; [reflexivity|].
  destruct (anomalous_status_reset Sample.engine Sample.localizer
              (Sample.message "hola" None) "es-es"
              (Sample.within GreetingDialog_name DialogTurnStatus.cancelled
                             false false)
              eq_refl eq_refl)
    as (Hreset & _); try discriminate.
  apply Hreset. reflexivity.
Defined.

(** An active dialog that replies and reports a status the router does not
    know: the turn ends with that status and no dialog was cancelled. *)
Lemma anomalous_status_left_alone :
  let w := Sample.within GreetingDialog_name DialogTurnStatus.cancelled true false in
  let o := routeMessage Sample.engine Sample.localizer
                        (Sample.message "hola" None) "es-es" w in
  status (val o) = DialogTurnStatus.cancelled
  /\ status (val o) <> DialogTurnStatus.empty
  /\ status (val o) <> DialogTurnStatus.waiting
  /\ status (val o) <> DialogTurnStatus.complete
  /\ calls o = [Recognize "es-es"; IsTurnInterrupted NONE_INTENT;
                ContinueDialog]
  /\ existsb isCancelAllDialogs (calls o) = false.
Proof.
  cbv zeta. repeat split; try reflexivity; discriminate.
Qed.


(** * Further properties of the router *)

Section Coverage.

Context `{Payloads} (E : Engine) (loc : Localizer).

Lemma option_eq_dec_string (a b : option string) : {a = b} + {a <> b}.
Proof. decide equality. apply string_dec. Qed.

(** ** [welcomeUser] *)

Lemma welcomeMembers_run recipientId members turnResult w :
  let greeted := filter (fun m => String.eqb (id m) recipientId) members in
  let o := welcomeMembers E recipientId members turnResult w in
  calls o = repeat (BeginDialog WelcomeDialog_name None) (List.length greeted)
  /\ (greeted = [] -> val o = turnResult /\ post o = w)
  /\ (greeted <> [] ->
      exists w',
        val o = fst (perform E (BeginDialog WelcomeDialog_name None) w')
        /\ post o = snd (perform E (BeginDialog WelcomeDialog_name None) w')).
Proof.
  cbv zeta. revert turnResult w.
  induction members as [|m members IH]; intros turnResult w.
  - cbn. repeat split; congruence.
  - cbn [welcomeMembers filter]. run.
    destruct (String.eqb (id m) recipientId); cbn.
    + match goal with
      | |- context [welcomeMembers E _ _ ?t ?w'] =>
          destruct (IH t w') as (Hc & Hn & Hs)
      end.
      split; [now rewrite Hc|]. split; [discriminate|]. intros _.
      destruct (filter _ members) eqn:F.
      * destruct (Hn eq_refl) as [-> ->]. eauto.
      * apply Hs. discriminate.
    + apply IH.
Qed.

Lemma welcomeUser_calls activity w :
  calls (welcomeUser E activity w)
  = repeat (BeginDialog WelcomeDialog_name None)
           (List.length (addedRecipients activity)).
Proof.
  unfold welcomeUser, addedRecipients.
  destruct (membersAdded activity) as [[|m ms]|]; try reflexivity.
  apply welcomeMembers_run.
Qed.

(** X1: [welcomeUser] begins the Welcome dialog once for every added member
    that is the recipient of the activity, in order, and issues no other
    call; its result is the result of the last Welcome dialog begun. *)
Theorem welcomeUser_begins activity w :
  let o := welcomeUser E activity w in
  calls o = repeat (BeginDialog WelcomeDialog_name None)
                   (List.length (addedRecipients activity))
  /\ (addedRecipients activity <> [] ->
      exists w',
        val o = fst (perform E (BeginDialog WelcomeDialog_name None) w')
        /\ post o = snd (perform E (BeginDialog WelcomeDialog_name None) w')).
Proof.
  cbv zeta. unfold welcomeUser, addedRecipients.
  destruct (membersAdded activity) as [[|m ms]|].
  - cbn. split; congruence.
  - destruct (welcomeMembers_run (id (recipient activity)) (m :: ms)
                                 DIALOG_TURN_RESULT_DEFAULT w)
      as (Hc & _ & Hs). auto.
  - cbn. split; congruence.
Qed.

(** X2: when the recipient is not among the added members (or no member was
    added), [welcomeUser] does nothing: no call, the world as it was and the
    default waiting result. *)
Theorem welcomeUser_noop activity w :
  addedRecipients activity = [] ->
  welcomeUser E activity w = mkOut DIALOG_TURN_RESULT_DEFAULT w [].
Proof.
  unfold welcomeUser, addedRecipients.
  destruct (membersAdded activity) as [[|m ms]|]; try reflexivity.
  intros F.
  destruct (welcomeMembers_run (id (recipient activity)) (m :: ms)
                               DIALOG_TURN_RESULT_DEFAULT w)
    as (Hc & Hn & _).
  cbv zeta in Hn. destruct (Hn F) as [Hv Hp]. rewrite F in Hc.
  destruct (welcomeMembers E _ _ _ w) as [v p c]. cbn in *. congruence.
Qed.

(** ** The shape of a message turn *)

Lemma continueQnA_shape turnResult w :
  let o := continueQnA E turnResult w in
  (calls o = [] /\ val o = turnResult /\ post o = w)
  \/ calls o = [ContinueDialog].
Proof. cbv zeta. unfold continueQnA. run. repeat branch; auto. Qed.

Lemma handleInterruption_shape topIntent turnResult w :
  let o := handleInterruption E topIntent turnResult w in
  calls o = [IsTurnInterrupted topIntent; ContinueDialog]
  \/ ((calls o = [IsTurnInterrupted topIntent]
       \/ calls o = [IsTurnInterrupted topIntent; RepromptDialog])
      /\ val o = turnResult).
Proof. cbv zeta. unfold handleInterruption. run. repeat branch; auto. Qed.

Lemma fallbackDispatch_shape results topIntent turnResult w :
  let o := fallbackDispatch E results topIntent turnResult w in
  ((calls o = [] \/ calls o = [CancelAllDialogs]) /\ val o = turnResult)
  \/ calls o = [BeginDialog GreetingDialog_name
                  (Some {| options_entities := entities results |})]
  \/ calls o = [BeginDialog QnADialog_name None].
Proof. cbv zeta. unfold fallbackDispatch. run. repeat branch; auto. Qed.

(** The three shapes of the calls of [routeMessage]. *)
Lemma routeMessage_shape activity L w :
  let o := routeMessage E loc activity L w in
  (attachmentOnly activity = true
   /\ calls o = [SendActivity (gettext loc L "attachmentResponse")]
   /\ val o = DIALOG_TURN_RESULT_DEFAULT)
  \/ (attachmentOnly activity = false /\ isRestart loc activity L = true
      /\ calls o = [AccessorSet (with_locale new_UserData (Some L));
                    CancelAllDialogs; BeginDialog WelcomeDialog_name None])
  \/ (attachmentOnly activity = false /\ isRestart loc activity L = false
      /\ exists q i d,
          calls o
          = (q ++ Recognize L :: IsTurnInterrupted (effectiveIntent E L w)
               :: i ++ d)%list
          /\ (q = [] \/ q = [ContinueDialog])
          /\ (i = [] \/ i = [RepromptDialog] \/ i = [ContinueDialog])
          /\ (d = [] \/ d = [CancelAllDialogs]
              \/ d = [BeginDialog GreetingDialog_name
                        (Some {| options_entities :=
                                   entities (val (classified E L w)) |})]
              \/ d = [BeginDialog QnADialog_name None])
          /\ (q = [] -> (i = [] \/ i = [RepromptDialog]) ->
              (d = [] \/ d = [CancelAllDialogs]) ->
              val o = DIALOG_TURN_RESULT_DEFAULT)).
Proof.
  cbv zeta. destruct (attachmentOnly activity) eqn:A.
  { left. rewrite routeMessage_attachment by exact A. auto. }
  destruct (isRestart loc activity L) eqn:R.
  { right. left. rewrite routeMessage_restart by assumption. auto. }
  right. right. rewrite routeMessage_steps by assumption. cbn [calls val].
  split; [reflexivity|]. split; [reflexivity|].
  pose proof (continueQnA_shape DIALOG_TURN_RESULT_DEFAULT w) as Hq.
  pose proof (handleInterruption_shape
                (effectiveIntent E L w) (val (afterQnA E w))
                (post (classified E L w))) as Hi.
  pose proof (fallbackDispatch_shape
                (val (classified E L w)) (effectiveIntent E L w)
                (val (afterInterruption E L w))
                (post (afterInterruption E L w))) as Hd.
  cbv zeta in Hq, Hi, Hd.
  fold (afterQnA E w) in Hq. fold (afterInterruption E L w) in Hi.
  fold (dispatched E L w) in Hd.
  assert (Hi' : exists i,
             calls (afterInterruption E L w)
             = IsTurnInterrupted (effectiveIntent E L w) :: i
             /\ (i = [ContinueDialog]
                 \/ (i = [] \/ i = [RepromptDialog])
                    /\ val (afterInterruption E L w) = val (afterQnA E w))).
  { destruct Hi as [Hi | [[Hi | Hi] Hv]]; rewrite Hi; eauto 7. }
  destruct Hi' as (i & Hic & Hi'). rewrite Hic.
  exists (calls (afterQnA E w)), i, (calls (dispatched E L w)).
  split; [reflexivity|].
  split; [destruct Hq as [(-> & _) | ->]; auto|].
  split; [destruct Hi' as [-> | ([-> | ->] & _)]; auto|].
  split; [destruct Hd as [([-> | ->] & _) | [-> | ->]]; auto|].
  intros Eq Ei Ed.
  destruct Hq as [(_ & Hqv & _) | Hq]; [|congruence].
  destruct Hi' as [-> | (_ & Hiv)];
    [destruct Ei; discriminate|].
  destruct Hd as [(_ & Hdv) | [Hd | Hd]];
    [congruence | rewrite Hd in Ed; destruct Ed; discriminate ..].
Qed.

(** X3: in one message turn the router begins at most one dialog, cancels
    all dialogs at most once, calls the recognizer at most once, reprompts at
    most once and continues the active dialog at most twice. *)
Theorem message_turn_bounds activity L w :
  let c := calls (routeMessage E loc activity L w) in
  (List.length (filter isBeginDialog c) <= 1)%nat
  /\ (List.length (filter isCancelAllDialogs c) <= 1)%nat
  /\ (List.length (filter isRecognize c) <= 1)%nat
  /\ (List.length (filter isRepromptDialog c) <= 1)%nat
  /\ (List.length (filter isContinueDialog c) <= 2)%nat.
Proof.
  cbv zeta.
  destruct (routeMessage_shape activity L w)
    as [(_ & -> & _) | [(_ & _ & ->) | (_ & _ & q & i & d & -> & Hq & Hi
                                         & Hd & _)]].
  1, 2: cbn; lia.
  destruct Hq as [-> | ->], Hi as [-> | [-> | ->]],
           Hd as [-> | [-> | [-> | ->]]]; cbn; lia.
Qed.

Lemma message_turn_writes_iff activity L w :
  existsb isAccessorSet (calls (routeMessage E loc activity L w)) = true
  <-> attachmentOnly activity = false /\ isRestart loc activity L = true.
Proof.
  destruct (routeMessage_shape activity L w)
    as [(A & -> & _) | [(A & R & ->) | (A & R & q & i & d & -> & Hq & Hi
                                         & Hd & _)]].
  - cbn. split; [discriminate|]. intros [A' _]. congruence.
  - cbn. tauto.
  - assert (N : existsb isAccessorSet
                  (q ++ Recognize L
                     :: IsTurnInterrupted (effectiveIntent E L w) :: i ++ d)
                = false).
    { destruct Hq as [-> | ->], Hi as [-> | [-> | ->]],
               Hd as [-> | [-> | [-> | ->]]]; reflexivity. }
    rewrite N. split; [discriminate|]. intros [_ R']. congruence.
Qed.

(** X4: a message turn writes the user data exactly when it is a restart:
    no other branch of [routeMessage] calls the accessor's [set], and the
    record written holds the locale the turn was routed with. *)
Theorem message_turn_writes activity L w :
  (existsb isAccessorSet (calls (routeMessage E loc activity L w)) = true
   <-> attachmentOnly activity = false /\ isRestart loc activity L = true)
  /\ (forall u,
        In (AccessorSet u) (calls (routeMessage E loc activity L w)) ->
        locale u = Some L).
Proof.
  split; [apply message_turn_writes_iff|].
  intros u.
  destruct (routeMessage_shape activity L w)
    as [(_ & -> & _) | [(_ & _ & ->) | (_ & _ & q & i & d & -> & Hq & Hi
                                         & Hd & _)]].
  - cbn. intros [D | []]. discriminate.
  - cbn. intros [D | [D | [D | []]]]; try discriminate.
    now injection D as <-.
  - destruct Hq as [-> | ->], Hi as [-> | [-> | ->]],
             Hd as [-> | [-> | [-> | ->]]]; cbn.
    all: intuition discriminate.
Qed.

(** X5: the result of a message turn is the default waiting result unless
    the router began or continued a dialog in that turn. *)
Theorem message_turn_default_result activity L w :
  existsb yieldsTurnResult (calls (routeMessage E loc activity L w)) = false ->
  val (routeMessage E loc activity L w) = DIALOG_TURN_RESULT_DEFAULT.
Proof.
  destruct (routeMessage_shape activity L w)
    as [(_ & _ & Hv) | [(_ & _ & ->) | (_ & _ & q & i & d & -> & Hq & Hi
                                         & Hd & Hv)]].
  - intros _. exact Hv.
  - cbn. discriminate.
  - destruct Hq as [-> | ->], Hi as [-> | [-> | ->]],
             Hd as [-> | [-> | [-> | ->]]]; cbn; try discriminate.
    all: intros _; apply Hv; auto.
Qed.

(** ** Whole turns *)

Lemma resolveLocale_shape activity w :
  let c := calls (resolveLocale E loc activity w) in
  c = [AccessorGet]
  \/ c = [AccessorGet; AccessorGetOr new_UserData]
  \/ exists u, c = [AccessorGet; AccessorGetOr new_UserData; AccessorSet u].
Proof.
  cbv zeta. rewrite resolveLocale_run. cbv zeta.
  destruct (String.eqb _ ""); cbn [calls]; auto.
  rewrite setUserLocale_run. cbv zeta.
  destruct (strictNe _ _ && _ && _); cbn [calls]; eauto.
Qed.

Lemma onContinueDialog_run activity w :
  let r := resolveLocale E loc activity w in
  onContinueDialog E loc activity w
  = if String.eqb (type activity) ActivityTypes.Message then
      let o := routeMessage E loc activity (val r) (post r) in
      mkOut (val o) (post o) (calls r ++ calls o)
    else if String.eqb (type activity) ActivityTypes.ConversationUpdate then
      let o := welcomeUser E activity (post r) in
      mkOut (val o) (post o) (calls r ++ calls o)
    else mkOut DIALOG_TURN_RESULT_DEFAULT (post r) (calls r).
Proof.
  cbv zeta. unfold onContinueDialog.
  unfold bind, ret, Monad_Router, Router_bind, Router_ret.
  destruct (String.eqb (type activity) ActivityTypes.Message);
    [reflexivity|].
  destruct (String.eqb (type activity) ActivityTypes.ConversationUpdate);
    [reflexivity|].
  cbn [val post calls]. now rewrite app_nil_r.
Qed.

(** X6: a turn that is neither a message nor a conversation update does
    locale resolution and nothing else: every call goes to the state
    accessor, no dialog is touched and the result is the default waiting
    result. *)
Theorem other_activity_turn activity w :
  type activity <> ActivityTypes.Message ->
  type activity <> ActivityTypes.ConversationUpdate ->
  let r := resolveLocale E loc activity w in
  let o := onContinueDialog E loc activity w in
  o = mkOut DIALOG_TURN_RESULT_DEFAULT (post r) (calls r)
  /\ forallb (fun c => isAccessorGet c || isAccessorSet c) (calls o) = true.
Proof.
  intros T1 T2. cbv zeta. rewrite onContinueDialog_run. cbv zeta.
  rewrite (eqb_neq_false _ _ T1), (eqb_neq_false _ _ T2).
  split; [reflexivity|]. cbn [calls].
  destruct (resolveLocale_shape activity w) as [-> | [-> | (u & ->)]];
    reflexivity.
Qed.

(** X7: a conversation update turn resolves the locale and then begins the
    Welcome dialog once per added member that is the recipient; it never
    calls the recognizer, the interruption policy or the channel. *)
Theorem conversation_update_turn activity w :
  type activity = ActivityTypes.ConversationUpdate ->
  let r := resolveLocale E loc activity w in
  calls (onContinueDialog E loc activity w)
  = (calls r ++ repeat (BeginDialog WelcomeDialog_name None)
                       (List.length (addedRecipients activity)))%list.
Proof.
  intros T. cbv zeta. rewrite onContinueDialog_run. cbv zeta. rewrite T.
  cbn [String.eqb Ascii.eqb Bool.eqb ActivityTypes.ConversationUpdate
       ActivityTypes.Message calls].
  f_equal. unfold welcomeUser, addedRecipients.
  destruct (membersAdded activity) as [[|m ms]|]; try reflexivity.
  apply welcomeMembers_run.
Qed.

Lemma resolveLocale_calls_accessor activity w c :
  In c (calls (resolveLocale E loc activity w)) ->
  isAccessorGet c || isAccessorSet c = true.
Proof.
  destruct (resolveLocale_shape activity w) as [-> | [-> | (u & ->)]];
    cbn; intuition subst; reflexivity.
Qed.

(** X8: whatever the turn, a dialog the router begins is one of the four
    dialogs the constructor added to the dialog set. *)
Theorem begins_registered_dialogs activity w name options :
  In (BeginDialog name options) (calls (onContinueDialog E loc activity w)) ->
  In name registeredDialogs.
Proof.
  rewrite onContinueDialog_run. cbv zeta.
  assert (Hr : ~ In (BeginDialog name options)
                    (calls (resolveLocale E loc activity w))).
  { intros Hin. now apply resolveLocale_calls_accessor in Hin. }
  destruct (String.eqb (type activity) ActivityTypes.Message).
  - cbn [calls]. rewrite in_app_iff. intros [Hin | Hin]; [tauto|].
    revert Hin.
    destruct (routeMessage_shape activity
                (val (resolveLocale E loc activity w))
                (post (resolveLocale E loc activity w)))
      as [(_ & -> & _) | [(_ & _ & ->) | (_ & _ & q & i & d & -> & Hq & Hi
                                           & Hd & _)]].
    + cbn. intros [D | []]. discriminate.
    + cbn. intros [D | [D | [D | []]]]; try discriminate.
      injection D as <- _. auto.
    + destruct Hq as [-> | ->], Hi as [-> | [-> | ->]],
               Hd as [-> | [-> | [-> | ->]]]; cbn.
      all: intuition (try discriminate).
      all: match goal with D : BeginDialog _ _ = BeginDialog _ _ |- _ =>
             injection D as <- _; auto end.
  - destruct (String.eqb (type activity) ActivityTypes.ConversationUpdate).
    + cbn [calls]. rewrite in_app_iff. intros [Hin | Hin]; [tauto|].
      revert Hin. unfold welcomeUser.
      assert (Hw : forall members t w',
                 In (BeginDialog name options)
                    (calls (welcomeMembers E (id (recipient activity))
                                           members t w')) ->
                 In name registeredDialogs).
      { intros members t w' Hin.
        destruct (welcomeMembers_run (id (recipient activity)) members t w')
          as (Hc & _). rewrite Hc in Hin. apply repeat_spec in Hin.
        injection Hin as -> _. cbn. auto. }
      destruct (membersAdded activity) as [[|m ms]|]; eauto.
      all: intros [].
    + cbn [calls]. tauto.
Qed.

(** X9: the recognizer is called on message turns only, and with the locale
    that locale resolution gave for the turn. *)
Theorem recognizer_of_resolved_locale activity w l :
  In (Recognize l) (calls (onContinueDialog E loc activity w)) ->
  type activity = ActivityTypes.Message
  /\ l = val (resolveLocale E loc activity w).
Proof.
  rewrite onContinueDialog_run. cbv zeta.
  assert (Hr : ~ In (Recognize l) (calls (resolveLocale E loc activity w))).
  { intros Hin. now apply resolveLocale_calls_accessor in Hin. }
  destruct (String.eqb_spec (type activity) ActivityTypes.Message) as [T | T].
  - cbn [calls]. rewrite in_app_iff. intros [Hin | Hin]; [tauto|].
    split; [exact T|]. revert Hin.
    destruct (routeMessage_shape activity
                (val (resolveLocale E loc activity w))
                (post (resolveLocale E loc activity w)))
      as [(_ & -> & _) | [(_ & _ & ->) | (_ & _ & q & i & d & -> & Hq & Hi
                                           & Hd & _)]].
    + cbn. intros [D | []]. discriminate.
    + cbn. intros [D | [D | [D | []]]]; discriminate.
    + destruct Hq as [-> | ->], Hi as [-> | [-> | ->]],
               Hd as [-> | [-> | [-> | ->]]]; cbn.
      all: intuition (try discriminate).
      all: match goal with D : Recognize _ = Recognize _ |- _ =>
             now injection D end.
  - destruct (String.eqb (type activity) ActivityTypes.ConversationUpdate).
    + cbn [calls]. rewrite in_app_iff. intros [Hin | Hin]; [tauto|].
      exfalso. revert Hin. unfold welcomeUser.
      assert (Hw : forall members t w',
                 ~ In (Recognize l)
                      (calls (welcomeMembers E (id (recipient activity))
                                             members t w'))).
      { intros members t w' Hin.
        destruct (welcomeMembers_run (id (recipient activity)) members t w')
          as (Hc & _). rewrite Hc in Hin. apply repeat_spec in Hin.
        discriminate. }
      destruct (membersAdded activity) as [[|m ms]|];
        [intros [] | apply Hw | intros []].
    + cbn [calls]. tauto.
Qed.

(** ** Continuing the active dialog *)

Lemma handleInterruption_continues topIntent turnResult w :
  let asked := perform E (IsTurnInterrupted topIntent) w in
  fst asked = false ->
  handleInterruption E topIntent turnResult w
  = mkOut (fst (perform E ContinueDialog (snd asked)))
          (snd (perform E ContinueDialog (snd asked)))
          [IsTurnInterrupted topIntent; ContinueDialog].
Proof.
  cbv zeta. intros Hi. unfold handleInterruption. run.
  unfold Resp in *. now rewrite Hi.
Qed.

(** X10: with the QnA dialog active and no interruption reported, the active
    dialog is continued twice in the turn, once before and once after the
    recognizer is called, and the result of the first continuation, whether
    normalized or not, is dropped: the fallback dispatch sees the result of
    the second. *)
Theorem active_QnA_continued_twice activity L w :
  attachmentOnly activity = false ->
  isRestart loc activity L = false ->
  activeDialog E w = Some QnADialog_name ->
  let intent := effectiveIntent E L w in
  let asked := perform E (IsTurnInterrupted intent) (post (classified E L w)) in
  fst asked = false ->
  calls (routeMessage E loc activity L w)
  = ContinueDialog :: Recognize L :: IsTurnInterrupted intent
      :: ContinueDialog :: calls (dispatched E L w)
  /\ val (afterInterruption E L w)
     = fst (perform E ContinueDialog (snd asked))
  /\ post (afterInterruption E L w)
     = snd (perform E ContinueDialog (snd asked)).
Proof.
  intros A R Ha. cbv zeta. intros Hi.
  rewrite routeMessage_steps by assumption. cbn [calls].
  pose proof (continueQnA_active E DIALOG_TURN_RESULT_DEFAULT w Ha) as Hq.
  cbv zeta in Hq. fold (afterQnA E w) in Hq.
  pose proof (handleInterruption_continues
                (effectiveIntent E L w) (val (afterQnA E w))
                (post (classified E L w)) Hi) as Hrun.
  fold (afterInterruption E L w) in Hrun.
  rewrite Hrun. cbn [calls val post]. rewrite Hq. cbn [calls].
  repeat split.
Qed.

(** X11: with another dialog, or none, active and no interruption reported,
    the router continues the active dialog exactly once, after the
    interruption policy, and hands its result to the fallback dispatch. *)
Theorem no_interruption_continues_once activity L w :
  attachmentOnly activity = false ->
  isRestart loc activity L = false ->
  activeDialog E w <> Some QnADialog_name ->
  let intent := effectiveIntent E L w in
  let asked := perform E (IsTurnInterrupted intent) (post (classified E L w)) in
  fst asked = false ->
  calls (routeMessage E loc activity L w)
  = Recognize L :: IsTurnInterrupted intent :: ContinueDialog
      :: calls (dispatched E L w)
  /\ val (afterInterruption E L w)
     = fst (perform E ContinueDialog (snd asked))
  /\ existsb isContinueDialog (calls (dispatched E L w)) = false.
Proof.
  intros A R Ha. cbv zeta. intros Hi.
  rewrite routeMessage_steps by assumption. cbn [calls].
  pose proof (continueQnA_inactive E DIALOG_TURN_RESULT_DEFAULT w Ha) as Hq.
  fold (afterQnA E w) in Hq.
  pose proof (handleInterruption_continues
                (effectiveIntent E L w) (val (afterQnA E w))
                (post (classified E L w)) Hi) as Hrun.
  fold (afterInterruption E L w) in Hrun.
  rewrite Hrun. cbn [calls val post]. rewrite Hq. cbn [calls].
  repeat split.
  pose proof (fallbackDispatch_shape
                (val (classified E L w)) (effectiveIntent E L w)
                (val (afterInterruption E L w))
                (post (afterInterruption E L w))) as Hd.
  cbv zeta in Hd. fold (dispatched E L w) in Hd.
  destruct Hd as [([-> | ->] & _) | [-> | ->]]; reflexivity.
Qed.

(** ** The locale across calls and turns *)

(** X12: under the accessor's contract, a non-empty locale set with
    [setUserLocale] is the locale [getUserLocale] returns next. *)
Theorem set_then_get_locale stored l w :
  AccessorContract E stored ->
  l <> "" ->
  val (getUserLocale E (post (setUserLocale E (Some l) w))) = Some l.
Proof.
  intros C Hl. rewrite setUserLocale_run. cbv zeta.
  destruct (getOr_run E stored new_UserData w C) as (w' & Hp & Hs).
  rewrite Hp. cbn [fst snd].
  destruct (strictNe _ _ && _ && _) eqn:G; cbn [post];
    unfold getUserLocale, bind, ret, Monad_Router, Router_bind, Router_ret,
           call; cbn [val post calls].
  - rewrite (get_reads _ _ C). cbn [fst snd].
    match goal with
    | |- context [stored (snd (perform E (AccessorSet ?u) ?w0))] =>
        let Hw := fresh in
        pose proof (set_writes _ _ C u w0) as Hw; now rewrite Hw
    end.
  - rewrite (get_reads _ _ C). cbn [fst snd].
    assert (N : ~ exists l', Some l = Some l' /\ l' <> ""
                   /\ locale match stored w with
                              | Some u => u
                              | None => new_UserData
                              end <> Some l')
      by (rewrite <- setUserLocale_guard; congruence).
    destruct (stored w) as [u|] eqn:Hw.
    + destruct Hs as [-> | [D _]]; [|discriminate]. cbn.
      destruct (option_eq_dec_string (locale u) (Some l)) as [e | n];
        [exact e|]. exfalso. apply N. eauto.
    + exfalso. apply N. exists l. repeat split; auto. discriminate.
Qed.

(** X13: under the accessor's contract, once a turn has resolved a
    non-empty locale, the next turn resolves the same locale, whatever its
    own locale hint, and does so with a single read and no write. *)
Theorem resolved_locale_sticks stored activity activity' w :
  AccessorContract E stored ->
  let r1 := resolveLocale E loc activity w in
  val r1 <> "" ->
  let r2 := resolveLocale E loc activity' (post r1) in
  val r2 = val r1 /\ calls r2 = [AccessorGet] /\ post r2 = post r1.
Proof.
  intros C. cbv zeta. intros Hne.
  destruct (resolveLocale_persisted E loc stored activity w C Hne)
    as (u & Hs & Hl).
  rewrite (resolveLocale_run E loc activity'). cbv zeta.
  rewrite (get_reads _ _ C). cbn [fst snd]. rewrite Hs, Hl.
  assert (Hv : orElse (Some (val (resolveLocale E loc activity w))) ""
               = val (resolveLocale E loc activity w)).
  { unfold orElse. now rewrite (eqb_neq_false _ _ Hne). }
  rewrite Hv, (eqb_neq_false _ _ Hne). auto.
Qed.

Lemma orElse_nonempty s d : d <> "" -> orElse s d <> "".
Proof.
  intros Hd. destruct s as [v|]; cbn; [|exact Hd].
  destruct (String.eqb_spec v ""); auto.
Qed.

(** X14: when the library default locale is not the empty string, the
    resolved locale is never the empty string, whatever is stored and
    whatever the turn hints at. *)
Theorem resolved_locale_nonempty activity w :
  getLocale loc <> "" ->
  val (resolveLocale E loc activity w) <> "".
Proof.
  intros Hd. rewrite resolveLocale_run. cbv zeta.
  destruct (String.eqb_spec
              (orElse match fst (perform E AccessorGet w) with
                      | Some u => locale u
                      | None => None
                      end "") "") as [S | S]; cbn [val]; [|exact S].
  destruct (includes _ _); auto using orElse_nonempty.
Qed.

End Coverage.

(** ** The utterance *)

Functional Scheme strip_ind := Induction for strip Sort Prop.

Lemma isWhiteSpace_lowerChar c : isWhiteSpace (lowerChar c) = isWhiteSpace c.
Proof. destruct c as [[] [] [] [] [] [] [] []]; reflexivity. Qed.

Lemma lowerChar_idempotent c : lowerChar (lowerChar c) = lowerChar c.
Proof. destruct c as [[] [] [] [] [] [] [] []]; reflexivity. Qed.

Lemma lowerChar_cases c :
  lowerChar c = c
  \/ ((nat_of_ascii c <? 123)%nat = true
      /\ (nat_of_ascii (lowerChar c) <? 123)%nat = true).
Proof.
  destruct c as [[] [] [] [] [] [] [] []];
    first [left; reflexivity | right; split; reflexivity].
Qed.

Lemma isWhiteSpace_low c :
  isWhiteSpace c = true -> (nat_of_ascii c <? 123)%nat = true.
Proof.
  destruct c as [[] [] [] [] [] [] [] []]; cbn; intros W;
    first [reflexivity | discriminate W].
Qed.

Lemma byteIn_low lo hi c :
  (123 <= lo)%nat -> (nat_of_ascii c <? 123)%nat = true ->
  byteIn lo hi c = false.
Proof.
  intros Hlo Hc. apply Nat.ltb_lt in Hc. unfold byteIn.
  apply andb_false_iff. left. apply Nat.leb_gt. lia.
Qed.

Lemma byteIn_lowerChar lo hi c :
  (123 <= lo)%nat -> byteIn lo hi (lowerChar c) = byteIn lo hi c.
Proof.
  intros Hlo. destruct (lowerChar_cases c) as [-> | [H1 H2]]; [reflexivity|].
  now rewrite !byteIn_low.
Qed.

Lemma byteIn_whiteSpace lo hi c :
  (123 <= lo)%nat -> isWhiteSpace c = true -> byteIn lo hi c = false.
Proof. intros Hlo Hc. apply byteIn_low; auto using isWhiteSpace_low. Qed.

Lemma whiteSpace2_lowerChar a b :
  whiteSpace2 (lowerChar a) (lowerChar b) = whiteSpace2 a b.
Proof. unfold whiteSpace2. now rewrite !byteIn_lowerChar by lia. Qed.

Lemma whiteSpace3_lowerChar a b c :
  whiteSpace3 (lowerChar a) (lowerChar b) (lowerChar c) = whiteSpace3 a b c.
Proof. unfold whiteSpace3. now rewrite !byteIn_lowerChar by lia. Qed.

Lemma whiteSpace2_ascii a b :
  isWhiteSpace a = true \/ isWhiteSpace b = true -> whiteSpace2 a b = false.
Proof.
  unfold whiteSpace2. intros [W | W].
  - now rewrite !(fun lo hi P => byteIn_whiteSpace lo hi a P W) by lia.
  - rewrite !(fun lo hi P => byteIn_whiteSpace lo hi b P W) by lia.
    apply andb_false_r.
Qed.

Lemma whiteSpace3_ascii a b c :
  isWhiteSpace a = true \/ isWhiteSpace b = true \/ isWhiteSpace c = true ->
  whiteSpace3 a b c = false.
Proof.
  unfold whiteSpace3. intros [W | [W | W]].
  - now rewrite !(fun lo hi P => byteIn_whiteSpace lo hi a P W) by lia.
  - rewrite !(fun lo hi P => byteIn_whiteSpace lo hi b P W) by lia.
    now rewrite !andb_false_r.
  - rewrite !(fun lo hi P => byteIn_whiteSpace lo hi c P W) by lia.
    now rewrite !andb_false_r.
Qed.

Section Strip.

Variable w2 : ascii -> ascii -> bool.
Variable w3 : ascii -> ascii -> ascii -> bool.

Lemma strip_head s : startsWithWhiteSpace (strip w2 w3 s) = false.
Proof. functional induction (strip w2 w3 s); cbn; auto. Qed.

Lemma strip_suffix s : exists x, s = (x ++ strip w2 w3 s)%string.
Proof.
  functional induction (strip w2 w3 s); try (now exists "").
  all: destruct IHs0 as (x & Hx).
  all: match goal with
       | |- exists y, ?t = _ =>
           match t with
           | String ?a (String ?b (String ?c _)) =>
               exists (String a (String b (String c x)))
           | String ?a (String ?b _) => exists (String a (String b x))
           | String ?a _ => exists (String a x)
           end
       end; cbn; congruence.
Qed.

Lemma strip_front ws s :
  allWhiteSpace ws = true -> strip w2 w3 (ws ++ s) = strip w2 w3 s.
Proof.
  induction ws as [|c ws IH]; [reflexivity|]. cbn [allWhiteSpace append strip].
  destruct (isWhiteSpace c); [exact IH|discriminate].
Qed.

Lemma strip_blank ws : allWhiteSpace ws = true -> strip w2 w3 ws = "".
Proof.
  induction ws as [|c ws IH]; [reflexivity|]. cbn [allWhiteSpace strip].
  destruct (isWhiteSpace c); [exact IH|discriminate].
Qed.

Hypothesis w2_ascii : forall a b,
  isWhiteSpace a = true \/ isWhiteSpace b = true -> w2 a b = false.
Hypothesis w3_ascii : forall a b c,
  isWhiteSpace a = true \/ isWhiteSpace b = true \/ isWhiteSpace c = true ->
  w3 a b c = false.

Lemma strip_back s ws :
  allWhiteSpace ws = true ->
  (strip w2 w3 s = "" /\ strip w2 w3 (s ++ ws) = "")
  \/ (strip w2 w3 s <> ""
      /\ strip w2 w3 (s ++ ws) = (strip w2 w3 s ++ ws)%string).
Proof.
  intros Hw. functional induction (strip w2 w3 s).
  - left. split; [reflexivity|]. now apply strip_blank.
  - cbn [append strip]. now rewrite e0.
  - right. split; [discriminate|]. cbn [append strip]. rewrite e0.
    destruct ws as [|x ws]; [reflexivity|]. cbn in Hw.
    apply andb_true_iff in Hw. destruct Hw as [Hx Hw].
    rewrite (w2_ascii a x (or_intror Hx)).
    destruct ws as [|y ws]; [reflexivity|]. cbn in Hw.
    apply andb_true_iff in Hw. destruct Hw as [Hy Hw].
    now rewrite (w3_ascii a x y (or_intror (or_introl Hx))).
  - cbn [append strip]. now rewrite e0, e2.
  - right. split; [discriminate|]. cbn [append strip]. rewrite e0, e2.
    destruct ws as [|x ws]; [reflexivity|]. cbn in Hw.
    apply andb_true_iff in Hw. destruct Hw as [Hx Hw].
    now rewrite (w3_ascii _ _ x (or_intror (or_intror Hx))).
  - cbn [append strip]. now rewrite e0, e2, e4.
  - right. split; [discriminate|]. cbn [append strip]. now rewrite e0, e2, e4.
Qed.

Hypothesis w2_lower : forall a b, w2 (lowerChar a) (lowerChar b) = w2 a b.
Hypothesis w3_lower : forall a b c,
  w3 (lowerChar a) (lowerChar b) (lowerChar c) = w3 a b c.

Lemma strip_toLowerCase s :
  strip w2 w3 (toLowerCase s) = toLowerCase (strip w2 w3 s).
Proof.
  functional induction (strip w2 w3 s); cbn [toLowerCase strip];
    rewrite ?isWhiteSpace_lowerChar, ?w2_lower, ?w3_lower, ?e0, ?e2, ?e4;
    auto.
Qed.

End Strip.

Lemma append_empty_r s : (s ++ "")%string = s.
Proof. induction s as [|c s IH]; cbn; congruence. Qed.

Lemma append_associative a b c :
  ((a ++ b) ++ c)%string = (a ++ (b ++ c))%string.
Proof. induction a as [|x a IH]; cbn; congruence. Qed.

Lemma rev_append a b : JsString.rev (a ++ b) = (JsString.rev b ++ rev a)%string.
Proof.
  induction a as [|x a IH]; cbn.
  - now rewrite append_empty_r.
  - now rewrite IH, append_associative.
Qed.

Lemma rev_involutive s : JsString.rev (JsString.rev s) = s.
Proof.
  induction s as [|c s IH]; cbn; [reflexivity|].
  now rewrite rev_append, IH.
Qed.

Lemma toLowerCase_append a b :
  toLowerCase (a ++ b) = (toLowerCase a ++ toLowerCase b)%string.
Proof. induction a as [|x a IH]; cbn; congruence. Qed.

Lemma toLowerCase_rev s : toLowerCase (JsString.rev s) = JsString.rev (toLowerCase s).
Proof.
  induction s as [|c s IH]; cbn; [reflexivity|].
  now rewrite toLowerCase_append, IH.
Qed.

Lemma toLowerCase_idempotent s : toLowerCase (toLowerCase s) = toLowerCase s.
Proof.
  induction s as [|c s IH]; cbn; [reflexivity|].
  now rewrite lowerChar_idempotent, IH.
Qed.

Lemma allWhiteSpace_append a b :
  allWhiteSpace (a ++ b) = allWhiteSpace a && allWhiteSpace b.
Proof.
  induction a as [|x a IH]; cbn; [reflexivity|].
  now rewrite IH, andb_assoc.
Qed.

Lemma allWhiteSpace_rev s : allWhiteSpace (JsString.rev s) = allWhiteSpace s.
Proof.
  induction s as [|c s IH]; cbn; [reflexivity|].
  rewrite allWhiteSpace_append, IH. cbn. rewrite andb_true_r.
  apply andb_comm.
Qed.

Lemma trimStart_toLowerCase s :
  trimStart (toLowerCase s) = toLowerCase (trimStart s).
Proof.
  apply strip_toLowerCase;
    auto using whiteSpace2_lowerChar, whiteSpace3_lowerChar.
Qed.

Lemma trimEnd_toLowerCase s :
  trimEnd (toLowerCase s) = toLowerCase (trimEnd s).
Proof.
  unfold trimEnd. rewrite <- toLowerCase_rev, strip_toLowerCase.
  - symmetry. apply toLowerCase_rev.
  - intros. apply whiteSpace2_lowerChar.
  - intros. apply whiteSpace3_lowerChar.
Qed.

Lemma trim_toLowerCase s : trim (toLowerCase s) = toLowerCase (trim s).
Proof. unfold trim. now rewrite trimStart_toLowerCase, trimEnd_toLowerCase. Qed.

Lemma trimEnd_padding s ws :
  allWhiteSpace ws = true -> trimEnd (s ++ ws) = trimEnd s.
Proof.
  intros Hw. unfold trimEnd. rewrite rev_append, strip_front; auto.
  now rewrite allWhiteSpace_rev.
Qed.

Lemma trimEnd_empty : trimEnd "" = "".
Proof. reflexivity. Qed.

Lemma trim_padding ws1 s ws2 :
  allWhiteSpace ws1 = true -> allWhiteSpace ws2 = true ->
  trim (ws1 ++ s ++ ws2) = trim s.
Proof.
  intros H1 H2. unfold trim, trimStart. rewrite strip_front by exact H1.
  destruct (strip_back whiteSpace2 whiteSpace3
              whiteSpace2_ascii whiteSpace3_ascii s ws2 H2)
    as [[-> ->] | [_ ->]]; [reflexivity|].
  now apply trimEnd_padding.
Qed.

Lemma prefix_head p y :
  startsWithWhiteSpace (p ++ y) = false -> startsWithWhiteSpace p = false.
Proof. destruct p; cbn; auto. Qed.

Lemma trimEnd_prefix s : exists y, s = (trimEnd s ++ y)%string.
Proof.
  unfold trimEnd.
  destruct (strip_suffix (fun a b => whiteSpace2 b a)
                         (fun a b c => whiteSpace3 c b a) (JsString.rev s))
    as (x & Hx).
  exists (JsString.rev x). rewrite <- rev_append, <- Hx. symmetry.
  apply rev_involutive.
Qed.

Lemma trim_head s : startsWithWhiteSpace (trim s) = false.
Proof.
  unfold trim. destruct (trimEnd_prefix (trimStart s)) as (y & Hy).
  apply prefix_head with y. rewrite <- Hy. apply strip_head.
Qed.

Lemma trim_last s : endsWithWhiteSpace (trim s) = false.
Proof.
  unfold endsWithWhiteSpace, trim, trimEnd.
  rewrite rev_involutive. apply strip_head.
Qed.

(** U+00A0 and U+3000 in front, U+2028, U+FEFF and a blank behind. *)
Example trim_unicode_white_space :
  trim (utf8 [194; 160; 227; 128; 128]%nat ++ "hola"
          ++ utf8 [226; 128; 168; 239; 187; 191; 32]%nat)
  = "hola".
Proof. reflexivity. Qed.

(** A letter of two bytes whose last byte is the last byte of U+00A0. *)
Example trim_keeps_letters :
  trim (" " ++ utf8 [195; 160]%nat ++ " ") = utf8 [195; 160]%nat.
Proof. reflexivity. Qed.

(** A text of U+00A0 alone, with an attachment, is an attachment-only
    turn. *)
Example no_break_space_is_blank :
  attachmentOnly (Sample.message (utf8 [194; 160]%nat) (Some ["photo.png"]))
  = true.
Proof. reflexivity. Qed.

Lemma startsWithWhiteSpace_toLowerCase s :
  startsWithWhiteSpace (toLowerCase s) = startsWithWhiteSpace s.
Proof. destruct s; cbn; auto using isWhiteSpace_lowerChar. Qed.

Lemma endsWithWhiteSpace_toLowerCase s :
  endsWithWhiteSpace (toLowerCase s) = endsWithWhiteSpace s.
Proof.
  unfold endsWithWhiteSpace.
  now rewrite <- toLowerCase_rev, startsWithWhiteSpace_toLowerCase.
Qed.

Lemma utteranceOf_text activity t :
  utteranceOf (with_text activity (Some t)) = toLowerCase (trim t).
Proof.
  unfold utteranceOf, with_text, orElse. cbn [text].
  destruct (String.eqb_spec t ""); subst; reflexivity.
Qed.

(** X15: white space around the text and the case of its letters do not
    count: the utterance, and with it the test for the restart command and
    the test for an attachment-only turn, is the same for a text, the text
    padded with white space and the text in lower case. *)
Theorem utterance_ignores_padding_and_case
    (loc : Localizer) activity L t ws1 ws2 :
  allWhiteSpace ws1 = true ->
  allWhiteSpace ws2 = true ->
  let plain := with_text activity (Some t) in
  let padded := with_text activity (Some (ws1 ++ t ++ ws2)) in
  let lowered := with_text activity (Some (toLowerCase t)) in
  utteranceOf padded = utteranceOf plain
  /\ utteranceOf lowered = utteranceOf plain
  /\ isRestart loc padded L = isRestart loc plain L
  /\ isRestart loc lowered L = isRestart loc plain L
  /\ attachmentOnly padded = attachmentOnly plain
  /\ attachmentOnly lowered = attachmentOnly plain.
Proof.
  intros H1 H2. cbv zeta.
  assert (P : utteranceOf (with_text activity (Some (ws1 ++ t ++ ws2)))
              = utteranceOf (with_text activity (Some t)))
    by (now rewrite !utteranceOf_text, trim_padding).
  assert (C : utteranceOf (with_text activity (Some (toLowerCase t)))
              = utteranceOf (with_text activity (Some t)))
    by (now rewrite !utteranceOf_text, trim_toLowerCase,
                    toLowerCase_idempotent).
  unfold isRestart, attachmentOnly. rewrite P, C. repeat split.
Qed.

(** X16: the utterance is trimmed but the localized restart command is
    not: a restart command that begins or ends with white space is matched
    by no text at all. *)
Theorem padded_restart_command_never_matches
    (loc : Localizer) activity L :
  startsWithWhiteSpace (gettext loc L "restartCommand")
  || endsWithWhiteSpace (gettext loc L "restartCommand") = true ->
  isRestart loc activity L = false.
Proof.
  intros Hc. unfold isRestart. apply String.eqb_neq. intros Heq.
  assert (Hs : startsWithWhiteSpace (utteranceOf activity) = false)
    by (unfold utteranceOf;
        now rewrite startsWithWhiteSpace_toLowerCase, trim_head).
  assert (He : endsWithWhiteSpace (utteranceOf activity) = false)
    by (unfold utteranceOf;
        now rewrite endsWithWhiteSpace_toLowerCase, trim_last).
  rewrite Heq, startsWithWhiteSpace_toLowerCase in Hs.
  rewrite Heq, endsWithWhiteSpace_toLowerCase in He.
  rewrite Hs, He in Hc. discriminate.
Qed.

(** ** Writes and empty messages *)

Section Edges.

Context `{Payloads} (E : Engine) (loc : Localizer).

(** X17: a turn writes the user data at most twice, and twice only when it
    is a restart message of a user for whom locale resolution had to store
    a locale first; every other turn writes at most once. *)
Theorem turn_writes_bound activity w :
  let r := resolveLocale E loc activity w in
  let n := List.length
             (filter isAccessorSet (calls (onContinueDialog E loc activity w)))
  in
  (n <= 2)%nat
  /\ ((1 < n)%nat ->
      type activity = ActivityTypes.Message
      /\ isRestart loc activity (val r) = true
      /\ existsb isAccessorSet (calls r) = true).
Proof.
  cbv zeta. rewrite onContinueDialog_run. cbv zeta.
  destruct (String.eqb_spec (type activity) ActivityTypes.Message) as [T | T].
  - cbn [calls]. rewrite filter_app, length_app.
    destruct (routeMessage_shape E loc activity
                (val (resolveLocale E loc activity w))
                (post (resolveLocale E loc activity w)))
      as [(_ & -> & _) | [(_ & R & ->) | (_ & _ & q & i & d & -> & Hq & Hi
                                           & Hd & _)]].
    + destruct (resolveLocale_shape E loc activity w)
        as [-> | [-> | (u & ->)]]; cbn; split; lia.
    + destruct (resolveLocale_shape E loc activity w)
        as [-> | [-> | (u & ->)]]; cbn; split; auto; lia.
    + destruct Hq as [-> | ->], Hi as [-> | [-> | ->]],
               Hd as [-> | [-> | [-> | ->]]].
      all: destruct (resolveLocale_shape E loc activity w)
             as [-> | [-> | (u & ->)]]; cbn; split; lia.
  - destruct (String.eqb (type activity) ActivityTypes.ConversationUpdate).
    + cbn [calls]. rewrite filter_app, length_app.
      assert (W : filter isAccessorSet
                    (calls (welcomeUser E activity
                              (post (resolveLocale E loc activity w)))) = []).
      { rewrite welcomeUser_calls.
        induction (List.length (addedRecipients activity)); cbn; auto. }
      rewrite W.
      destruct (resolveLocale_shape E loc activity w)
        as [-> | [-> | (u & ->)]]; cbn; split; lia.
    + cbn [calls].
      destruct (resolveLocale_shape E loc activity w)
        as [-> | [-> | (u & ->)]]; cbn; split; lia.
Qed.

(** X18: a message without text and without attachments (none, or an empty
    list) is no special case: unless the localized restart command is empty,
    it goes through classification like any text, and the router sends no
    reply of its own. *)
Theorem empty_message_is_classified activity L w :
  trim (orElse (text activity) "") = "" ->
  attachments activity = None \/ attachments activity = Some [] ->
  toLowerCase (gettext loc L "restartCommand") <> "" ->
  let o := routeMessage E loc activity L w in
  In (Recognize L) (calls o)
  /\ existsb isSendActivity (calls o) = false
  /\ existsb isAccessorSet (calls o) = false.
Proof.
  intros Ht Ha Hc. cbv zeta.
  assert (A : attachmentOnly activity = false).
  { unfold attachmentOnly. destruct Ha as [-> | ->]; cbn;
      now rewrite andb_false_r. }
  assert (R : isRestart loc activity L = false).
  { unfold isRestart, utteranceOf. rewrite Ht. cbn [toLowerCase].
    apply String.eqb_neq. congruence. }
  split; [|split].
  - rewrite routeMessage_steps by assumption. cbn [calls].
    apply in_or_app. right. left. reflexivity.
  - now apply routeMessage_sends.
  - destruct (existsb isAccessorSet _) eqn:S; [|reflexivity].
    apply message_turn_writes_iff in S. destruct S. congruence.
Qed.

End Edges.

(** ** The further properties on the concrete engine *)

Lemma welcomeUser_noop_witness :
  addedRecipients (Scenario.joined ["ana"]) = []
  /\ calls (welcomeUser Sample.engine (Scenario.joined ["ana"]) Sample.idle)
     = [].
Proof.
  split; [reflexivity|].
  now rewrite (welcomeUser_noop Sample.engine (Scenario.joined ["ana"])
                 Sample.idle eq_refl).
Defined.

Lemma message_turn_default_result_witness :
  let w := Sample.within GreetingDialog_name DialogTurnStatus.waiting true true in
  let o := routeMessage Sample.engine Sample.localizer
                        (Sample.message "hola" None) "es-es" w in
  calls o = [Recognize "es-es"; IsTurnInterrupted NONE_INTENT; RepromptDialog]
  /\ val o = DIALOG_TURN_RESULT_DEFAULT.
Proof.
  split; [reflexivity|].
  apply (message_turn_default_result Sample.engine Sample.localizer
           (Sample.message "hola" None) "es-es"
           (Sample.within GreetingDialog_name DialogTurnStatus.waiting
                          true true)).
  reflexivity.
Defined.

Lemma other_activity_turn_witness :
  calls (onContinueDialog Sample.engine Sample.localizer Scenario.typing
                          Sample.idle)
  = [AccessorGet; AccessorGetOr new_UserData;
     AccessorSet {| locale := Some "en-us" |}].
Proof.
  destruct (other_activity_turn Sample.engine Sample.localizer
              Scenario.typing Sample.idle) as (-> & _);
    [discriminate | discriminate | reflexivity].
Defined.

Lemma conversation_update_turn_witness :
  calls (onContinueDialog Sample.engine Sample.localizer
                          (Scenario.joined ["ana"; "bot"]) Sample.idle)
  = [AccessorGet; AccessorGetOr new_UserData;
     AccessorSet {| locale := Some "es-es" |};
     BeginDialog WelcomeDialog_name None].
Proof.
  now rewrite (conversation_update_turn Sample.engine Sample.localizer
                 (Scenario.joined ["ana"; "bot"]) Sample.idle eq_refl).
Defined.

Lemma begins_registered_dialogs_witness :
  In GreetingDialog_name registeredDialogs.
Proof.
  apply (begins_registered_dialogs Sample.engine Sample.localizer
           (Sample.message "hola" None) Sample.idle
           GreetingDialog_name (Some (Sample.options ["Ana"]))).
  vm_compute. auto 10.
Defined.

Lemma recognizer_of_resolved_locale_witness :
  val (resolveLocale Sample.engine Sample.localizer
                     (Sample.message "hola" None) Sample.idle) = "es-es".
Proof.
  symmetry.
  apply (recognizer_of_resolved_locale Sample.engine Sample.localizer
           (Sample.message "hola" None) Sample.idle "es-es").
  vm_compute. auto 10.
Defined.

Lemma active_QnA_continued_twice_witness :
  let w := Sample.within QnADialog_name DialogTurnStatus.waiting true false in
  calls (routeMessage Sample.engine Sample.localizer
                      (Sample.message "hola" None) "es-es" w)
  = [ContinueDialog; Recognize "es-es"; IsTurnInterrupted NONE_INTENT;
     ContinueDialog].
Proof.
  cbv zeta.
  destruct (active_QnA_continued_twice Sample.engine Sample.localizer
              (Sample.message "hola" None) "es-es"
              (Sample.within QnADialog_name DialogTurnStatus.waiting
                             true false)
              eq_refl eq_refl eq_refl eq_refl) as (-> & _).
  reflexivity.
Defined.

Lemma no_interruption_continues_once_witness :
  calls (routeMessage Sample.engine Sample.localizer
                      (Sample.message "hola" None) "es-es" Sample.idle)
  = [Recognize "es-es"; IsTurnInterrupted GREETING_INTENT; ContinueDialog;
     BeginDialog GreetingDialog_name (Some (Sample.options ["Ana"]))].
Proof.
  destruct (no_interruption_continues_once Sample.engine Sample.localizer
              (Sample.message "hola" None) "es-es" Sample.idle
              eq_refl eq_refl) as (-> & _);
    [discriminate | reflexivity | reflexivity].
Defined.

Lemma set_then_get_locale_witness :
  val (getUserLocale Sample.engine
         (post (setUserLocale Sample.engine (Some "es-es") Sample.idle)))
  = Some "es-es".
Proof.
  apply (set_then_get_locale Sample.engine Sample.userData "es-es"
           Sample.idle Sample_accessor).
  discriminate.
Defined.

Lemma resolved_locale_sticks_witness :
  let r1 := resolveLocale Sample.engine Sample.localizer
                          (Sample.message "hola" None) Sample.idle in
  val r1 = "es-es"
  /\ val (resolveLocale Sample.engine Sample.localizer Scenario.typing
                        (post r1)) = "es-es".
Proof.
  split; [reflexivity|].
  destruct (resolved_locale_sticks Sample.engine Sample.localizer
              Sample.userData (Sample.message "hola" None) Scenario.typing
              Sample.idle Sample_accessor) as (-> & _);
    [discriminate | reflexivity].
Defined.

Lemma resolved_locale_nonempty_witness :
  val (resolveLocale Sample.engine Sample.localizer Scenario.typing
                     Sample.foreigner) <> "".
Proof.
  apply (resolved_locale_nonempty Sample.engine Sample.localizer
           Scenario.typing Sample.foreigner).
  discriminate.
Defined.

Lemma utterance_ignores_padding_and_case_witness :
  utteranceOf (Sample.message "  Reiniciar " None)
  = utteranceOf (Sample.message "Reiniciar" None).
Proof.
  apply (utterance_ignores_padding_and_case Sample.localizer
           (Sample.message "x" None) "es-es" "Reiniciar" "  " " "
           eq_refl eq_refl).
Defined.

Lemma padded_restart_command_never_matches_witness :
  isRestart Scenario.sloppy (Sample.message " restart" None) "en-us" = false.
Proof.
  apply (padded_restart_command_never_matches Scenario.sloppy
           (Sample.message " restart" None) "en-us").
  reflexivity.
Defined.

Lemma empty_message_is_classified_witness :
  In (Recognize "es-es")
     (calls (routeMessage Sample.engine Sample.localizer
                          (Sample.message "" (Some [])) "es-es" Sample.idle)).
Proof.
  apply (empty_message_is_classified Sample.engine Sample.localizer
           (Sample.message "" (Some [])) "es-es" Sample.idle).
  - reflexivity.
  - right. reflexivity.
  - discriminate.
Defined.
